(** * Cortex operator: API validation and the operator cron jobs

    A shallow embedding of the operator's manifest validation
    (ExtractAPIConfigs, validateAPIs and the validators below them) and of the
    cron jobs of pkg/operator/operator/cron.go (updateHPAs,
    numUpdatedReadyReplicas, telemetryCron).

    Conventions.
    - A Go pointer that may be nil is an [option]; dereferencing nil is the
      outcome [Panics].
    - A Go [error] result is an [option Error] ([None] is nil).
    - Fixed-width integers are [Z] with the wrap-around written out.
    - Go maps are stdpp [gmap]s, Go string sets are [gset]s.
    - Calls that leave the repository's validation code (object storage, the
      cluster client, the Kubernetes quantity parser, the structural field
      validators) are fields of the record [World]. *)

From Stdlib Require Import ZArith String Ascii List Lia Bool Permutation.
From stdpp Require Import gmap strings list fin_maps.

Local Open Scope string_scope.
Local Open Scope Z_scope.

(** ** Go standard library: strings, strconv, path/filepath *)

Module GoStrings.

(** strings.HasPrefix(s, prefix) *)
Definition HasPrefix (s prefix : string) : bool := String.prefix prefix s.

(** strings.HasSuffix(s, suffix):
    len(s) >= len(suffix) && s[len(s)-len(suffix):] == suffix *)
Definition HasSuffix (s suffix : string) : bool :=
  let n := String.length s in
  let m := String.length suffix in
  (m <=? n)%nat && String.eqb (substring (n - m) m s) suffix.

(** strings.Split(s, sep) for a one-byte separator. *)
Fixpoint Split (s : string) (sep : ascii) : list string :=
  match s with
  | EmptyString => [EmptyString]
  | String c r =>
      if Ascii.eqb c sep then EmptyString :: Split r sep
      else match Split r sep with
           | h :: t => String c h :: t
           | [] => [String c EmptyString]
           end
  end.

(** strings.Join(elems, sep) *)
Fixpoint Join (elems : list string) (sep : string) : string :=
  match elems with
  | [] => ""
  | [e] => e
  | e :: rest => e +:+ sep +:+ Join rest sep
  end.

(** s.EnsureSuffix(str, suffix) *)
Definition EnsureSuffix (str suffix : string) : string :=
  if HasSuffix str suffix then str else str +:+ suffix.

Definition digit_of (c : ascii) : option Z :=
  let n := Z.of_nat (nat_of_ascii c) in
  if (48 <=? n) && (n <=? 57) then Some (n - 48) else None.

Fixpoint digits (s : string) (acc : Z) : option Z :=
  match s with
  | EmptyString => Some acc
  | String c r =>
      match digit_of c with
      | Some d => digits r (10 * acc + d)
      | None => None
      end
  end.

(** strconv.ParseInt(s, 10, 64): an optional sign, then at least one decimal
    digit; [None] stands for a non-nil error (syntax or range). *)
Definition ParseInt (s : string) : option Z :=
  let unsigned (r : string) : option Z :=
    match r with
    | EmptyString => None
    | _ => digits r 0
    end in
  let signed :=
    match s with
    | String "+" r => unsigned r
    | String "-" r => Z.opp <$> unsigned r
    | _ => unsigned s
    end in
  match signed with
  | Some v => if (- 2 ^ 63 <=? v) && (v <=? 2 ^ 63 - 1) then Some v else None
  | None => None
  end.

(** One step of filepath.Clean on the stack of components kept so far
    (most recent first). *)
Definition clean_step (rooted : bool) (stack : list string) (c : string)
  : list string :=
  if String.eqb c "" || String.eqb c "." then stack
  else if String.eqb c ".." then
    match stack with
    | top :: below => if String.eqb top ".." then c :: stack else below
    | [] => if rooted then [] else [c]
    end
  else c :: stack.

(** filepath.Clean on a slash-separated path. *)
Definition Clean (path : string) : string :=
  let rooted := HasPrefix path "/" in
  let kept := rev (fold_left (clean_step rooted) (Split path "/") []) in
  let body := Join kept "/" in
  if rooted then "/" +:+ body
  else if String.eqb body "" then "." else body.

(** filepath.Join(elem...): leading empty elements are dropped, the rest is
    joined with slashes and cleaned; no non-empty element gives the empty
    string. *)
Fixpoint filepath_Join (elem : list string) : string :=
  match elem with
  | [] => ""
  | e :: rest =>
      if String.eqb e "" then filepath_Join rest
      else Clean (Join elem "/")
  end.

End GoStrings.

Import GoStrings.

(** ** Integer widths *)

Definition wrap (bits : Z) (x : Z) : Z :=
  (x + 2 ^ (bits - 1)) mod 2 ^ bits - 2 ^ (bits - 1).

Definition int32 (x : Z) : Z := wrap 32 x.
Definition int64 (x : Z) : Z := wrap 64 x.

Definition fits (bits : Z) (x : Z) : bool :=
  (- 2 ^ (bits - 1) <=? x) && (x <? 2 ^ (bits - 1)).

(** ** The user configuration (package userconfig) *)

Inductive PredictorType :=
| UnknownPredictorType
| PythonPredictorType
| TensorFlowPredictorType
| ONNXPredictorType.

Inductive ModelType :=
| UnknownModelType
| ClassificationModelType
| RegressionModelType.

(** k8s.Quantity: a resource quantity, held in thousandths of its unit, with
    the string the user wrote. *)
Record Quantity := {
  Quantity_ : Z;
  UserString : string;
}.

Record Tracker := {
  Key : option string;
  ModelType_ : ModelType;
}.

Record Predictor := {
  Type_ : PredictorType;
  Path : string;
  Model : option string;
  PythonPath : option string;
  Config : list (string * string);
  Env : gmap string string;
  SignatureKey : option string;
}.

Record Compute := {
  MinReplicas : Z;
  MaxReplicas : Z;
  InitReplicas : Z;
  TargetCPUUtilization : Z;
  CPU : Quantity;
  Mem : option Quantity;
  GPU : Z;
}.

Record API := {
  Name : string;
  Endpoint : option string;
  Tracker_ : option Tracker;
  Predictor_ : Predictor;
  Compute_ : Compute;
  Index : Z;
  FilePath : string;
}.

Definition NameKey := "name".
Definition EndpointKey := "endpoint".
Definition PredictorKey := "predictor".
Definition ComputeKey := "compute".
Definition PathKey := "path".
Definition ModelKey := "model".
Definition PythonPathKey := "python_path".
Definition SignatureKeyKey := "signature_key".

(** ** Errors *)

(** One element of the diagnostic path that errors.Wrap prepends. *)
Inductive Context :=
| Str (s : string)
| IdentifyAPI (filePath name : string) (index : Z).

Inductive Error :=
| ErrorMalformedConfig
| ErrorNoAPIs
| ErrorDuplicateName (dups : list API)
| ErrorDuplicateEndpointOtherDeployment (apiName : string)
| ErrorFieldNotSupportedByPredictorType (field : string) (t : PredictorType)
| ErrorFieldMustBeDefinedForPredictorType (field : string) (t : PredictorType)
| ErrorS3FileNotFound (path : string)
| ErrorInvalidTensorFlowDir (path : string)
| ErrorImplDoesNotExist (path : string)
| ErrorMinReplicasGreaterThanMax (min max : Z)
| ErrorInitReplicasGreaterThanMax (init max : Z)
| ErrorInitReplicasLessThanMin (init min : Z)
| ErrorNoAvailableNodeComputeLimit (resource : string) (requested available : Z)
| ErrorField (field : string) (message : string)
| ErrorIO (message : string)
| Wrap (err : Error) (strs : list Context).

(** The spec's error taxonomy (section 7). *)
Inductive Kind :=
| MALFORMED_CONFIG
| NO_APIS
| DUPLICATE_NAME
| DUPLICATE_ENDPOINT_SAME_DEPLOYMENT
| DUPLICATE_ENDPOINT_OTHER_DEPLOYMENT
| FIELD_REQUIRED_FOR_PREDICTOR_TYPE
| FIELD_NOT_SUPPORTED_BY_PREDICTOR_TYPE
| S3_FILE_NOT_FOUND
| INVALID_TENSORFLOW_DIR
| IMPL_DOES_NOT_EXIST
| REPLICA_BOUND_VIOLATION
| INSUFFICIENT_NODE_CAPACITY
| FIELD_ERROR
| IO_ERROR.

Fixpoint kind (e : Error) : Kind :=
  match e with
  | ErrorMalformedConfig => MALFORMED_CONFIG
  | ErrorNoAPIs => NO_APIS
  | ErrorDuplicateName _ => DUPLICATE_NAME
  | ErrorDuplicateEndpointOtherDeployment _ => DUPLICATE_ENDPOINT_OTHER_DEPLOYMENT
  | ErrorFieldNotSupportedByPredictorType _ _ => FIELD_NOT_SUPPORTED_BY_PREDICTOR_TYPE
  | ErrorFieldMustBeDefinedForPredictorType _ _ => FIELD_REQUIRED_FOR_PREDICTOR_TYPE
  | ErrorS3FileNotFound _ => S3_FILE_NOT_FOUND
  | ErrorInvalidTensorFlowDir _ => INVALID_TENSORFLOW_DIR
  | ErrorImplDoesNotExist _ => IMPL_DOES_NOT_EXIST
  | ErrorMinReplicasGreaterThanMax _ _ => REPLICA_BOUND_VIOLATION
  | ErrorInitReplicasGreaterThanMax _ _ => REPLICA_BOUND_VIOLATION
  | ErrorInitReplicasLessThanMin _ _ => REPLICA_BOUND_VIOLATION
  | ErrorNoAvailableNodeComputeLimit _ _ _ => INSUFFICIENT_NODE_CAPACITY
  | ErrorField _ _ => FIELD_ERROR
  | ErrorIO _ => IO_ERROR
  | Wrap err _ => kind err
  end.

(** What a call returns when it returns at all. *)
Inductive Outcome (A : Type) :=
| Returns (a : A)
| Panics (reason : string).

Arguments Returns {A} a.
Arguments Panics {A} reason.

Definition nil_dereference : string := "invalid memory address or nil pointer dereference".

(** A fallible call: [inl] carries the error, [inr] the result. *)
Definition bindE {A B : Type} (x : Error + A) (f : A -> Error + B) : Error + B :=
  match x with
  | inl e => inl e
  | inr a => f a
  end.

Notation "x <~ e ;; k" := (bindE e (fun x => k))
  (at level 100, e at next level, k at level 200, right associativity).

(** Calls into the cluster, object storage and the library validators fail
    with a message of their own. *)
Definition io {A : Type} (x : string + A) : Error + A :=
  match x with
  | inl message => inl (ErrorIO message)
  | inr a => inr a
  end.

Definition checked {A : Type} (field : string) (x : string + A) : Error + A :=
  match x with
  | inl message => inl (ErrorField field message)
  | inr a => inr a
  end.

(** ** Cluster objects *)

Module kmeta.
Record ObjectMeta := {
  Name : string;
  Labels : gmap string string;
}.
End kmeta.

(** m[key] on a Go map of strings: the empty string when the key is absent. *)
Definition index (m : gmap string string) (key : string) : string :=
  default "" (m !! key).

(** A virtual service, with what k8s.ExtractVirtualServiceGateways and
    k8s.ExtractVirtualServiceEndpoints read from it. *)
Record VirtualService := {
  ObjectMeta : kmeta.ObjectMeta;
  Gateways : string + gset string;
  Endpoints : string + gset string;
}.

(** ** What the validation code calls outside of itself *)

Record World := {
  (* structural field validators: cr.StringValidation.DNS1035,
     urls.ValidateEndpoint, cr.S3PathValidator *)
  DNS1035 : string -> bool;
  ValidateEndpoint : string -> string + string;
  S3PathValidator : string -> string + string;
  (* the Kubernetes quantity parser, in thousandths *)
  ParseQuantity : string -> option Z;
  (* pkg/lib/aws *)
  Client : Type;
  NewFromS3Path : string -> string + Client;
  IsS3PathFile : Client -> list string -> bool * option string;
  IsS3PathPrefix : Client -> list string -> bool * option string;
  S3PathJoin : list string -> string;
  SplitS3Path : string -> string + (string * string);
  (* the keys of awsClient.S3.ListObjects(bucket, prefix).Contents; the
     caller drops the error *)
  ListObjects : Client -> string -> string -> list string;
  (* config.Cluster.InstanceMetadata and the reservation constants *)
  InstanceMetadata_CPU : Z;
  InstanceMetadata_GPU : Z;
  _cortexCPUReserve : Z;
  _cortexMemReserve : Z;
  _nvidiaCPUReserve : Z;
  _nvidiaMemReserve : Z;
  (* config.Kubernetes.ListVirtualServices("default", nil) *)
  ListVirtualServices : string + list VirtualService;
  updateMemoryCapacityConfigMap : string + Z;
}.

(** ** The manifest before structural validation *)

Record RawTracker := {
  raw_key : option string;
  raw_model_type : option string;
}.

Record RawPredictor := {
  raw_type : option string;
  raw_path : option string;
  raw_model : option string;
  raw_python_path : option string;
  raw_config : option (list (string * string));
  raw_env : option (gmap string string);
  raw_signature_key : option string;
}.

Record RawCompute := {
  raw_min_replicas : option Z;
  raw_max_replicas : option Z;
  raw_init_replicas : option Z;
  raw_target_cpu_utilization : option Z;
  raw_cpu : option string;
  raw_mem : option string;
  raw_gpu : option Z;
}.

Record RawAPI := {
  raw_name : option string;
  raw_endpoint : option string;
  raw_tracker : option RawTracker;
  raw_predictor : option RawPredictor;
  raw_compute : option RawCompute;
}.

(** What cr.ReadYAMLBytes followed by cast.InterfaceToStrInterfaceMapSlice
    gives for the bytes of a manifest. *)
Inductive ConfigData :=
| YAMLError (err : string)
| NotAMapSlice
| MapSlice (configDataSlice : list RawAPI).

(** ** Structural validation: the tables _apiValidation,
       _predictorValidation and _computeFieldValidation *)

Section Schema.

Variable w : World.

Definition required {A : Type} (field : string) (v : option A) : Error + A :=
  match v with
  | Some a => inr a
  | None => inl (ErrorField field "must be defined")
  end.

(** Modelled from the spec: cr.Int32Validation / cr.Int64Validation of the
    structural validator library (pkg/lib/configreader), which is not among
    the sources: a missing field takes its default, a present one must fit
    the width and satisfy the bound of the table. *)
Definition intField (field : string) (bits : Z) (dflt : Z) (lower : Z)
    (v : option Z) : Error + Z :=
  match v with
  | None => inr dflt
  | Some x =>
      if negb (fits bits x) then inl (ErrorField field "invalid type")
      else if x <? lower then inl (ErrorField field "out of range")
      else inr x
  end.

(** Modelled from the spec: the Parser k8s.QuantityParser with
    GreaterThan 0 of the tables (pkg/lib/k8s is not among the sources). *)
Definition QuantityParser (field : string) (str : string) : Error + Quantity :=
  match ParseQuantity w str with
  | None => inl (ErrorField field "invalid quantity")
  | Some q =>
      if q <=? 0 then inl (ErrorField field "must be greater than 0")
      else inr {| Quantity_ := q; UserString := str |}
  end.

Definition ModelTypeFromString (str : string) : ModelType :=
  if String.eqb str "classification" then ClassificationModelType
  else if String.eqb str "regression" then RegressionModelType
  else UnknownModelType.

Definition PredictorTypeFromString (str : string) : PredictorType :=
  if String.eqb str "python" then PythonPredictorType
  else if String.eqb str "tensorflow" then TensorFlowPredictorType
  else if String.eqb str "onnx" then ONNXPredictorType
  else UnknownPredictorType.

Definition optField {A B : Type} (f : A -> Error + B) (v : option A)
  : Error + option B :=
  match v with
  | None => inr None
  | Some a => b <~ f a ;; inr (Some b)
  end.

(** The "Tracker" entry of _apiValidation (DefaultNil). *)
Definition trackerValidation (raw : option RawTracker) : Error + option Tracker :=
  match raw with
  | None => inr None
  | Some t =>
      let str := default "" (raw_model_type t) in
      if String.eqb str "" || String.eqb str "classification"
         || String.eqb str "regression"
      then inr (Some {| Key := raw_key t; ModelType_ := ModelTypeFromString str |})
      else inl (ErrorField "model_type" "invalid value")
  end.

(** _predictorValidation *)
Definition predictorValidation (raw : option RawPredictor) : Error + Predictor :=
  p <~ required PredictorKey raw ;;
  type <~ required "type" (raw_type p) ;;
  type <~ (if String.eqb type "python" || String.eqb type "tensorflow"
              || String.eqb type "onnx"
           then inr (PredictorTypeFromString type)
           else inl (ErrorField "type" "invalid value")) ;;
  path <~ required PathKey (raw_path p) ;;
  model <~ optField (fun path => checked ModelKey (S3PathValidator w path))
             (raw_model p) ;;
  pythonPath <~ optField (fun path => inr (EnsureSuffix path "/"))
                 (raw_python_path p) ;;
  signatureKey <~ optField inr (raw_signature_key p) ;;
  inr {| Type_ := type;
         Path := path;
         Model := model;
         PythonPath := pythonPath;
         Config := default [] (raw_config p);
         Env := default ∅ (raw_env p);
         SignatureKey := signatureKey |}.

(** _computeFieldValidation *)
Definition computeValidation (raw : option RawCompute) : Error + Compute :=
  let c := default {| raw_min_replicas := None; raw_max_replicas := None;
                      raw_init_replicas := None;
                      raw_target_cpu_utilization := None;
                      raw_cpu := None; raw_mem := None; raw_gpu := None |} raw in
  minReplicas <~ intField "min_replicas" 32 1 1 (raw_min_replicas c) ;;
  maxReplicas <~ intField "max_replicas" 32 100 1 (raw_max_replicas c) ;;
  initReplicas <~ intField "init_replicas" 32 minReplicas 1 (raw_init_replicas c) ;;
  target <~ intField "target_cpu_utilization" 32 80 1
              (raw_target_cpu_utilization c) ;;
  cpu <~ QuantityParser "cpu" (default "200m" (raw_cpu c)) ;;
  mem <~ optField (QuantityParser "mem") (raw_mem c) ;;
  gpu <~ intField "gpu" 64 0 0 (raw_gpu c) ;;
  inr {| MinReplicas := minReplicas;
         MaxReplicas := maxReplicas;
         InitReplicas := initReplicas;
         TargetCPUUtilization := target;
         CPU := cpu;
         Mem := mem;
         GPU := gpu |}.

(** Modelled from the spec: cr.Struct(api, data, _apiValidation) of the
    structural validator library (pkg/lib/configreader, not among the
    sources), reading the tables of this file field by field and keeping the
    first error. The API comes back with Index and FilePath zeroed. *)
Definition Struct (data : RawAPI) : Error + API :=
  name <~ required NameKey (raw_name data) ;;
  name <~ (if DNS1035 w name then inr name
           else inl (ErrorField NameKey "must be a DNS-1035 label")) ;;
  endpoint <~ optField (fun endpoint => checked EndpointKey (ValidateEndpoint w endpoint))
                (raw_endpoint data) ;;
  tracker <~ trackerValidation (raw_tracker data) ;;
  predictor <~ predictorValidation (raw_predictor data) ;;
  compute <~ computeValidation (raw_compute data) ;;
  inr {| Name := name;
         Endpoint := endpoint;
         Tracker_ := tracker;
         Predictor_ := predictor;
         Compute_ := compute;
         Index := 0;
         FilePath := "" |}.

End Schema.

(** ** Field updates through a pointer *)

Definition setModel (p : Predictor) (model : option string) : Predictor :=
  {| Type_ := Type_ p; Path := Path p; Model := model;
     PythonPath := PythonPath p; Config := Config p; Env := Env p;
     SignatureKey := SignatureKey p |}.

Definition setEndpoint (api : API) (endpoint : option string) : API :=
  {| Name := Name api; Endpoint := endpoint; Tracker_ := Tracker_ api;
     Predictor_ := Predictor_ api; Compute_ := Compute_ api;
     Index := Index api; FilePath := FilePath api |}.

Definition setPredictor (api : API) (p : Predictor) : API :=
  {| Name := Name api; Endpoint := Endpoint api; Tracker_ := Tracker_ api;
     Predictor_ := p; Compute_ := Compute_ api;
     Index := Index api; FilePath := FilePath api |}.

Definition setProvenance (api : API) (i : Z) (filePath : string) : API :=
  {| Name := Name api; Endpoint := Endpoint api; Tracker_ := Tracker_ api;
     Predictor_ := Predictor_ api; Compute_ := Compute_ api;
     Index := i; FilePath := filePath |}.

(** api.Identify() *)
Definition Identify (api : API) : Context :=
  IdentifyAPI (FilePath api) (Name api) (Index api).

(** The project files: path to bytes. *)
Abbreviation ProjectFileMap := (gmap string (list Byte.byte)).

(** ** The validators *)

Section Validators.

Variable w : World.

(** validatePythonPredictor *)
Definition validatePythonPredictor (predictor : Predictor) : option Error :=
  if SignatureKey predictor is Some _ then
    Some (ErrorFieldNotSupportedByPredictorType SignatureKeyKey PythonPredictorType)
  else if Model predictor is Some _ then
    Some (ErrorFieldNotSupportedByPredictorType ModelKey PythonPredictorType)
  else None.

(** isValidTensorFlowS3Directory (the source also spells it
    IsValidTensorFlowS3Directory at its second call site). *)
Definition isValidTensorFlowS3Directory (path : string) (awsClient : Client w)
  : bool :=
  match IsS3PathFile w awsClient
          [S3PathJoin w [path; "saved_model.pb"];
           S3PathJoin w [path; "variables/variables.index"]] with
  | (_, Some _) => false
  | (false, None) => false
  | (true, None) =>
      match IsS3PathPrefix w awsClient
              [S3PathJoin w [path; "variables/variables.data-00000-of"]] with
      | (_, Some _) => false
      | (false, None) => false
      | (true, None) => true
      end
  end.

(** The body of the loop of getTFServingExportFromS3Path over resp.Contents;
    the state is (highestVersion, highestPath). *)
Definition versionStep (bucket : string) (awsClient : Client w)
    (st : Z * string) (key : string) : Z * string :=
  let '(highestVersion, highestPath) := st in
  if negb (HasSuffix key "saved_model.pb") then st
  else
    let keyParts := Split key "/" in
    let versionStr := List.last keyParts "" in
    let version := match ParseInt versionStr with
                   | Some v => v
                   | None => 0
                   end in
    let possiblePath :=
      "s3://" +:+ filepath_Join [bucket; filepath_Join (removelast keyParts)] in
    if (highestVersion <=? version)
       && isValidTensorFlowS3Directory possiblePath awsClient
    then (version, possiblePath)
    else st.

(** getTFServingExportFromS3Path *)
Definition getTFServingExportFromS3Path (path : string) (awsClient : Client w)
  : string * option Error :=
  if isValidTensorFlowS3Directory path awsClient then (path, None)
  else
    match SplitS3Path w path with
    | inl err => ("", Some (ErrorIO err))
    | inr (bucket, prefix) =>
        let prefix := EnsureSuffix prefix "/" in
        let contents := ListObjects w awsClient bucket prefix in
        let '(_, highestPath) :=
          fold_left (versionStep bucket awsClient) contents (0, "") in
        (highestPath, None)
    end.

(** validateTensorFlowPredictor; the predictor comes back as the call left
    it behind the pointer. *)
Definition validateTensorFlowPredictor (predictor : Predictor)
  : Predictor * option Error :=
  match Model predictor with
  | None =>
      (predictor,
       Some (ErrorFieldMustBeDefinedForPredictorType ModelKey TensorFlowPredictorType))
  | Some model =>
      match NewFromS3Path w model with
      | inl err => (predictor, Some (ErrorIO err))
      | inr awsClient =>
          if HasSuffix model ".zip" then
            match IsS3PathFile w awsClient [model] with
            | (true, None) => (predictor, None)
            | _ => (predictor, Some (Wrap (ErrorS3FileNotFound model) [Str ModelKey]))
            end
          else
            match getTFServingExportFromS3Path model awsClient with
            | (path, None) =>
                if String.eqb path "" then
                  (predictor,
                   Some (Wrap (ErrorInvalidTensorFlowDir model) [Str ModelKey]))
                else (setModel predictor (Some path), None)
            | (_, Some _) =>
                (predictor,
                 Some (Wrap (ErrorInvalidTensorFlowDir model) [Str ModelKey]))
            end
      end
  end.

(** validateONNXPredictor. The source ends after the signatureKey branch
    without a return statement; running off the end is read as the zero
    value of the result, nil. *)
Definition validateONNXPredictor (predictor : Predictor) : option Error :=
  match Model predictor with
  | None =>
      Some (ErrorFieldMustBeDefinedForPredictorType ModelKey ONNXPredictorType)
  | Some model =>
      match NewFromS3Path w model with
      | inl err => Some (ErrorIO err)
      | inr awsClient =>
          match IsS3PathFile w awsClient [model] with
          | (true, None) =>
              if SignatureKey predictor is Some _ then
                Some (ErrorFieldNotSupportedByPredictorType
                        SignatureKeyKey ONNXPredictorType)
              else None
          | _ => Some (Wrap (ErrorS3FileNotFound model) [Str ModelKey])
          end
      end
  end.

(** validatePythonPath: the loop over the keys of the map only looks for one
    key with the prefix, so the order of the iteration does not show. *)
Definition validatePythonPath (pythonPath : string)
    (projectFileMap : ProjectFileMap) : option Error :=
  let validPythonPath :=
    existsb (fun fileKey => HasPrefix fileKey pythonPath)
            (map_to_list projectFileMap).*1 in
  if negb validPythonPath then Some (ErrorImplDoesNotExist pythonPath)
  else None.

(** validatePredictor *)
Definition validatePredictor (predictor : Predictor)
    (projectFileMap : ProjectFileMap) : Predictor * option Error :=
  let '(predictor, err) :=
    match Type_ predictor with
    | PythonPredictorType => (predictor, validatePythonPredictor predictor)
    | TensorFlowPredictorType => validateTensorFlowPredictor predictor
    | ONNXPredictorType => (predictor, validateONNXPredictor predictor)
    | UnknownPredictorType => (predictor, None)
    end in
  match err with
  | Some err => (predictor, Some err)
  | None =>
      match projectFileMap !! Path predictor with
      | None =>
          (predictor,
           Some (Wrap (ErrorImplDoesNotExist (Path predictor)) [Str PathKey]))
      | Some _ =>
          match PythonPath predictor with
          | Some pythonPath =>
              match validatePythonPath pythonPath projectFileMap with
              | Some err => (predictor, Some (Wrap err [Str PythonPathKey]))
              | None => (predictor, None)
              end
          | None => (predictor, None)
          end
      end
  end.

(** validateAvailableCompute. [maxMem] is the quantity behind the pointer the
    caller passes; the first component of the result is that quantity when
    the call returns. maxCPU is a copy of the instance metadata. *)
Definition validateAvailableCompute (compute : Compute) (maxMem : Z)
  : Z * option Error :=
  let maxMem := maxMem - _cortexMemReserve w in
  let maxCPU := InstanceMetadata_CPU w in
  let maxCPU := maxCPU - _cortexCPUReserve w in
  let maxGPU := InstanceMetadata_GPU w in
  let '(maxCPU, maxMem) :=
    if 0 <? maxGPU
    then (maxCPU - _nvidiaCPUReserve w, maxMem - _nvidiaMemReserve w)
    else (maxCPU, maxMem) in
  if maxCPU <? Quantity_ (CPU compute) then
    (maxMem,
     Some (ErrorNoAvailableNodeComputeLimit "CPU" (Quantity_ (CPU compute)) maxCPU))
  else
    let memErr :=
      match Mem compute with
      | Some mem =>
          if maxMem <? Quantity_ mem then
            Some (ErrorNoAvailableNodeComputeLimit "Memory" (Quantity_ mem) maxMem)
          else None
      | None => None
      end in
    match memErr with
    | Some err => (maxMem, Some err)
    | None =>
        let gpu := GPU compute in
        if maxGPU <? gpu then
          (maxMem, Some (ErrorNoAvailableNodeComputeLimit "GPU" gpu maxGPU))
        else (maxMem, None)
    end.

(** validateCompute *)
Definition validateCompute (compute : Compute) (maxMem : Z) : Z * option Error :=
  if MaxReplicas compute <? MinReplicas compute then
    (maxMem,
     Some (ErrorMinReplicasGreaterThanMax (MinReplicas compute) (MaxReplicas compute)))
  else if MaxReplicas compute <? InitReplicas compute then
    (maxMem,
     Some (ErrorInitReplicasGreaterThanMax (InitReplicas compute) (MaxReplicas compute)))
  else if InitReplicas compute <? MinReplicas compute then
    (maxMem,
     Some (ErrorInitReplicasLessThanMin (InitReplicas compute) (MinReplicas compute)))
  else validateAvailableCompute compute maxMem.

End Validators.

(** ** One validation pass *)

Section Pass.

Variable w : World.

(** The order in which the Go runtime hands out the keys of a map to a
    [range] loop: some rearrangement of the keys, chosen anew by the runtime
    for every loop. *)
Variable rangeOrder : list string -> list string.

(** The inner loop of validateEndpointCollisions, over the endpoints of one
    virtual service. *)
Fixpoint endpointLoop (api : API) (apiName : string) (endpoints : list string)
  : Outcome (option Error) :=
  match endpoints with
  | [] => Returns None
  | endpoint :: rest =>
      match Endpoint api with
      | None => Panics nil_dereference
      | Some apiEndpoint =>
          if String.eqb endpoint apiEndpoint
             && negb (String.eqb apiName (Name api))
          then Returns (Some (Wrap (ErrorDuplicateEndpointOtherDeployment apiName)
                                [Identify api; Str EndpointKey; Str endpoint]))
          else endpointLoop api apiName rest
      end
  end.

(** validateEndpointCollisions. At most one endpoint of a set equals the
    API's, so the order of the inner loop does not show. *)
Fixpoint validateEndpointCollisions (api : API)
    (virtualServices : list VirtualService) : Outcome (option Error) :=
  match virtualServices with
  | [] => Returns None
  | virtualService :: rest =>
      match Gateways virtualService with
      | inl err => Returns (Some (ErrorIO err))
      | inr gateways =>
          if negb (bool_decide ("apis-gateway" ∈ gateways)) then
            validateEndpointCollisions api rest
          else
            match Endpoints virtualService with
            | inl err => Returns (Some (ErrorIO err))
            | inr endpoints =>
                match endpointLoop api
                        (index (kmeta.Labels (ObjectMeta virtualService)) "apiName")
                        (elements endpoints) with
                | Returns None => validateEndpointCollisions api rest
                | other => other
                end
            end
      end
  end.

(** The first loop of findDuplicateNames: names[api.Name] =
    append(names[api.Name], api). *)
Fixpoint collectNames (apis : list (option API)) (names : gmap string (list API))
  : Outcome (gmap string (list API)) :=
  match apis with
  | [] => Returns names
  | None :: _ => Panics nil_dereference
  | Some api :: rest =>
      collectNames rest
        (<[Name api := (default [] (names !! Name api) ++ [api])%list]> names)
  end.

(** The second loop of findDuplicateNames, over the keys as the runtime
    hands them out. *)
Fixpoint firstGroup (names : gmap string (list API)) (keys : list string)
  : list API :=
  match keys with
  | [] => []
  | name :: rest =>
      let group := default [] (names !! name) in
      if (1 <? length group)%nat then group else firstGroup names rest
  end.

(** findDuplicateNames *)
Definition findDuplicateNames (apis : list (option API)) : Outcome (list API) :=
  match collectNames apis ∅ with
  | Panics reason => Panics reason
  | Returns names =>
      Returns (firstGroup names (rangeOrder (elements (dom names))))
  end.

(** getValidationK8sResources: the two fetches run side by side under
    parallel.RunFirstErr; when both fail the error of the first is the one
    kept here. The source binds the two results to each other's names at the
    call site and passes them on by name; the pass below follows the names. *)
Definition getValidationK8sResources : Error + (list VirtualService * Z) :=
  match ListVirtualServices w, updateMemoryCapacityConfigMap w with
  | inl err, _ => inl (ErrorIO err)
  | inr _, inl err => inl (Wrap (ErrorIO err) [Str "validating memory constraint"])
  | inr virtualServices, inr maxMem => inr (virtualServices, maxMem)
  end.

(** validateAPI. The result carries the API as the call left it behind its
    pointer and the quantity behind maxMem. *)
Definition validateAPI (api : option API) (projectFileMap : ProjectFileMap)
    (virtualServices : list VirtualService) (maxMem : Z)
  : Outcome (API * Z * option Error) :=
  match api with
  | None => Panics nil_dereference
  | Some api =>
      let api :=
        if Endpoint api is None
        then setEndpoint api (Some ("/" +:+ Name api))
        else api in
      let '(predictor, err) := validatePredictor w (Predictor_ api) projectFileMap in
      let api := setPredictor api predictor in
      match err with
      | Some err => Returns (api, maxMem, Some (Wrap err [Identify api; Str PredictorKey]))
      | None =>
          let '(maxMem, err) := validateCompute w (Compute_ api) maxMem in
          match err with
          | Some err =>
              Returns (api, maxMem, Some (Wrap err [Identify api; Str ComputeKey]))
          | None =>
              match validateEndpointCollisions api virtualServices with
              | Panics reason => Panics reason
              | Returns err => Returns (api, maxMem, err)
              end
          end
      end
  end.

(** The loop of validateAPIs. The source has no return statement after the
    loop; running off the end is read as returning nil, as the spec does. *)
Fixpoint validateAll (projectFileMap : ProjectFileMap)
    (virtualServices : list VirtualService) (maxMem : Z)
    (apis : list (option API)) : Outcome (list (option API) * Z * option Error) :=
  match apis with
  | [] => Returns ([], maxMem, None)
  | api :: rest =>
      match validateAPI api projectFileMap virtualServices maxMem with
      | Panics reason => Panics reason
      | Returns (api, maxMem, Some err) => Returns (Some api :: rest, maxMem, Some err)
      | Returns (api, maxMem, None) =>
          match validateAll projectFileMap virtualServices maxMem rest with
          | Panics reason => Panics reason
          | Returns (rest, maxMem, err) => Returns (Some api :: rest, maxMem, err)
          end
      end
  end.

(** validateAPIs. Next to the error, the result carries the APIs as the pass
    left them behind their pointers. *)
Definition validateAPIs (apis : list (option API))
    (projectFileMap : ProjectFileMap) : Outcome (list (option API) * option Error) :=
  if (length apis =? 0)%nat then Returns (apis, Some ErrorNoAPIs)
  else
    match findDuplicateNames apis with
    | Panics reason => Panics reason
    | Returns dups =>
        if (0 <? length dups)%nat then Returns (apis, Some (ErrorDuplicateName dups))
        else
          match getValidationK8sResources with
          | inl err => Returns (apis, Some err)
          | inr (virtualServices, maxMem) =>
              match validateAll projectFileMap virtualServices maxMem apis with
              | Panics reason => Panics reason
              | Returns (apis, _, err) => Returns (apis, err)
              end
          end
    end.

(** The loop of ExtractAPIConfigs over configDataSlice: [apis] is the slice
    built so far, [i] the index of the entry at hand. *)
Fixpoint extractLoop (filePath : string) (i : Z) (configDataSlice : list RawAPI)
    (apis : list (option API)) : Error + list (option API) :=
  match configDataSlice with
  | [] => inr apis
  | data :: rest =>
      match Struct w data with
      | inl err =>
          let name := default "" (raw_name data) in
          inl (Wrap err [IdentifyAPI filePath name i])
      | inr api =>
          let api := setProvenance api i filePath in
          extractLoop filePath (i + 1) rest (apis ++ [Some api])%list
      end
  end.

(** ExtractAPIConfigs. [apis] starts as make([]*API, len(configDataSlice)),
    that many nil pointers, and every entry is appended behind them. *)
Definition ExtractAPIConfigs (configData : ConfigData)
    (projectFileMap : ProjectFileMap) (filePath : string)
  : Outcome (Error + list (option API)) :=
  match configData with
  | YAMLError err => Returns (inl (Wrap (ErrorIO err) [Str filePath]))
  | NotAMapSlice => Returns (inl (Wrap ErrorMalformedConfig [Str filePath]))
  | MapSlice configDataSlice =>
      let apis := replicate (length configDataSlice) None in
      match extractLoop filePath 0 configDataSlice apis with
      | inl err => Returns (inl err)
      | inr apis =>
          match validateAPIs apis projectFileMap with
          | Panics reason => Panics reason
          | Returns (_, Some err) => Returns (inl err)
          | Returns (apis, None) => Returns (inr apis)
          end
      end
  end.

End Pass.

(** ** The cron jobs (pkg/operator/operator/cron.go) *)

Module Cron.

(** time.Time and kmeta.Time as nanoseconds since the zero instant. *)
Definition Time := Z.
Definition Second : Z := 1000000000.
Definition IsZero (t : Time) : bool := t =? 0.
Definition Add (t : Time) (d : Z) : Time := t + d.
Definition After (t u : Time) : bool := u <? t.

Inductive DeploymentConditionType :=
| DeploymentAvailable
| DeploymentProgressing
| DeploymentReplicaFailure.

Inductive ConditionStatus :=
| ConditionTrue
| ConditionFalse
| ConditionUnknown.

Record DeploymentCondition := {
  Type_ : DeploymentConditionType;
  Status : ConditionStatus;
  LastUpdateTime : Time;
}.

Record Deployment := {
  DeploymentMeta : kmeta.ObjectMeta;
  Replicas : Z;
  Conditions : list DeploymentCondition;
}.

Record Pod := {
  PodMeta : kmeta.ObjectMeta;
  Reason : string;
}.

Record Node := {
  NodeMeta : kmeta.ObjectMeta;
}.

#[global] Instance DeploymentConditionType_eq_dec : EqDecision DeploymentConditionType.
Proof. solve_decision. Defined.

#[global] Instance ConditionStatus_eq_dec : EqDecision ConditionStatus.
Proof. solve_decision. Defined.

(** What config.Kubernetes answers during one tick: the autoscalers, keyed
    by API name, and the answer to ListPodsWithLabels("apiName"). *)
Record Kubernetes := {
  HPAs : gset string;
  Pods : string + list Pod;
}.

Definition HPAExists (k : Kubernetes) (name : string) : bool :=
  bool_decide (name ∈ HPAs k).

Definition ListPodsWithLabels (k : Kubernetes) : string + list Pod := Pods k.

(** Modelled from the spec: hpaSpec and config.Kubernetes.CreateHPA, which
    are not among the sources. The autoscaler of a deployment is keyed by
    the deployment's API name, and creating one under a key that is taken is
    refused by the cluster. *)
Definition hpaSpec (deployment : Deployment) : string :=
  index (kmeta.Labels (DeploymentMeta deployment)) "apiName".

Definition CreateHPA (k : Kubernetes) (hpa : string) : Kubernetes * option Error :=
  if bool_decide (hpa ∈ HPAs k) then (k, Some (ErrorIO "already exists"))
  else ({| HPAs := {[hpa]} ∪ HPAs k; Pods := Pods k |}, None).

Section Tick.

(** k8s.IsPodReady and k8s.IsPodSpecLatest *)
Variable IsPodReady : Pod -> bool.
Variable IsPodSpecLatest : Pod -> Deployment -> bool.

(** The clock, read as time.Now() wherever the tick asks. *)
Variable now : Time.

(** numUpdatedReadyReplicas; readyReplicas is an int32. *)
Definition numUpdatedReadyReplicas (deployment : Deployment) (pods : list Pod) : Z :=
  fold_left
    (fun readyReplicas pod =>
       if negb (String.eqb (index (kmeta.Labels (PodMeta pod)) "apiName")
                           (index (kmeta.Labels (DeploymentMeta deployment)) "apiName"))
       then readyReplicas
       else if IsPodReady pod && IsPodSpecLatest pod deployment
       then int32 (readyReplicas + 1)
       else readyReplicas)
    pods 0.

(** The test of the loop over deployment.Status.Conditions. *)
Definition stable (condition : DeploymentCondition) : bool :=
  bool_decide (Type_ condition = DeploymentProgressing)
  && bool_decide (Status condition = ConditionTrue)
  && negb (IsZero (LastUpdateTime condition))
  && After now (Add (LastUpdateTime condition) (35 * Second)).

(** What updateHPAs carries from one deployment to the next: the cluster,
    the cached pod list (nil until listed), the errors, and, for the proofs,
    the autoscalers created so far, latest first. *)
Record TickState := {
  cluster : Kubernetes;
  allPods : option (list Pod);
  errs : list Error;
  created : list string;
}.

(** The loop over deployment.Status.Conditions. *)
Definition conditionStep (deployment : Deployment) (st : TickState)
    (condition : DeploymentCondition) : TickState :=
  if stable condition then
    match CreateHPA (cluster st) (hpaSpec deployment) with
    | (_, Some err) =>
        {| cluster := cluster st; allPods := allPods st;
           errs := errs st ++ [err]; created := created st |}
    | (k, None) =>
        {| cluster := k; allPods := allPods st;
           errs := errs st; created := hpaSpec deployment :: created st |}
    end
  else st.

(** The body of the loop of updateHPAs over the deployments. *)
Definition deploymentStep (st : TickState) (deployment : Deployment) : TickState :=
  if HPAExists (cluster st)
       (index (kmeta.Labels (DeploymentMeta deployment)) "apiName")
  then st
  else
    let listed :=
      match allPods st with
      | Some pods => inr pods
      | None => ListPodsWithLabels (cluster st)
      end in
    match listed with
    | inl err =>
        {| cluster := cluster st; allPods := None;
           errs := errs st ++ [ErrorIO err]; created := created st |}
    | inr pods =>
        let st := {| cluster := cluster st; allPods := Some pods;
                     errs := errs st; created := created st |} in
        let updatedReplicas := numUpdatedReadyReplicas deployment pods in
        if updatedReplicas <? Replicas deployment then st
        else fold_left (conditionStep deployment) (Conditions deployment) st
    end.

Definition tick (k : Kubernetes) (deployments : list Deployment) : TickState :=
  fold_left deploymentStep deployments
    {| cluster := k; allPods := None; errs := []; created := [] |}.

(** updateHPAs: the cluster after the tick and errors.FirstError(errs). *)
Definition updateHPAs (k : Kubernetes) (deployments : list Deployment)
  : Kubernetes * option Error :=
  let st := tick k deployments in
  (cluster st, head (errs st)).

End Tick.

(** The event of telemetry.Event("operator.cron", properties). *)
Record Event := {
  instanceTypes : gmap string Z;
  instanceCount : Z;
}.

Definition isWorker (node : Node) : bool :=
  String.eqb (index (kmeta.Labels (NodeMeta node)) "workload") "true".

Definition instanceTypeOf (node : Node) : string :=
  let instanceType :=
    index (kmeta.Labels (NodeMeta node)) "beta.kubernetes.io/instance-type" in
  if String.eqb instanceType "" then "unknown" else instanceType.

(** The body of the loop of telemetryCron; both counters are Go ints, 64 bits
    wide. *)
Definition countNode (st : gmap string Z * Z) (node : Node) : gmap string Z * Z :=
  let '(instanceTypeCounts, totalInstances) := st in
  if negb (isWorker node) then st
  else
    let instanceType := instanceTypeOf node in
    (<[instanceType := int64 (default 0 (instanceTypeCounts !! instanceType) + 1)]>
       instanceTypeCounts,
     int64 (totalInstances + 1)).

(** telemetryCron, given the answer of config.Kubernetes.ListNodes(nil): the
    event sent, if any, and the error. The source runs off the end after
    sending the event; that is read as returning nil. *)
Definition telemetryCron (listNodes : string + list Node) : option Event * option Error :=
  match listNodes with
  | inl err => (None, Some (ErrorIO err))
  | inr nodes =>
      let '(instanceTypeCounts, totalInstances) := fold_left countNode nodes (∅, 0) in
      (Some {| instanceTypes := instanceTypeCounts;
               instanceCount := totalInstances |},
       None)
  end.

End Cron.

(** ** A concrete world for the scenarios of the spec (section 8) *)

Module Scenario.

Definition lower (c : ascii) : bool :=
  let n := nat_of_ascii c in (97 <=? n)%nat && (n <=? 122)%nat.

Definition alnum (c : ascii) : bool :=
  lower c || (let n := nat_of_ascii c in (48 <=? n)%nat && (n <=? 57)%nat).

(** A DNS-1035 label: a lower-case letter, then letters, digits and dashes,
    not ending in a dash, at most 63 bytes. *)
Definition dns1035 (s : string) : bool :=
  match list_ascii_of_string s with
  | [] => false
  | c :: rest =>
      lower c
      && forallb (fun c => alnum c || Ascii.eqb c "-") rest
      && alnum (List.last rest c)
      && (String.length s <=? 63)%nat
  end.

(** Quantities: decimal digits followed by nothing, "m", "Ki", "Mi" or "Gi";
    the value is in thousandths. *)
Definition parseQuantity (str : string) : option Z :=
  let n := String.length str in
  let number (k : nat) : option Z :=
    match substring 0 (n - k) str with
    | EmptyString => None
    | ds => digits ds 0
    end in
  if HasSuffix str "m" then number 1%nat
  else if HasSuffix str "Ki" then Z.mul (1000 * 2 ^ 10) <$> number 2%nat
  else if HasSuffix str "Mi" then Z.mul (1000 * 2 ^ 20) <$> number 2%nat
  else if HasSuffix str "Gi" then Z.mul (1000 * 2 ^ 30) <$> number 2%nat
  else Z.mul 1000 <$> number 0%nat.

Definition Mi : Z := 1000 * 2 ^ 20.

(** "s3://bucket/key" into bucket and key. *)
Definition splitS3Path (path : string) : string + (string * string) :=
  if negb (HasPrefix path "s3://") then inl "not an S3 path"
  else
    match Split (substring 5 (String.length path - 5) path) "/" with
    | bucket :: keyParts =>
        if String.eqb bucket "" then inl "not an S3 path"
        else inr (bucket, Join keyParts "/")
    | [] => inl "not an S3 path"
    end.

Definition s3PathJoin (paths : list string) : string :=
  match paths with
  | [] => ""
  | first :: rest =>
      "s3://" +:+ filepath_Join (substring 5 (String.length first - 5) first :: rest)
  end.

(** The keys of [objects] (full "s3://bucket/key" paths) that lie in
    [bucket] under [prefix]. *)
Definition listObjects (objects : list string) (bucket prefix : string)
  : list string :=
  let root := "s3://" +:+ bucket +:+ "/" in
  omap (fun object =>
          if HasPrefix object (root +:+ prefix)
          then Some (substring (String.length root)
                       (String.length object - String.length root) object)
          else None)
       objects.

(** A world with the given objects in storage and virtual services on the
    cluster; buckets named in [unreachable] cannot be opened. Nodes have 4
    CPUs, 4Gi of memory and [gpu] GPUs. *)
Definition world (objects : list string) (unreachable : list string)
    (services : list VirtualService) (gpu : Z) : World :=
  {| DNS1035 := dns1035;
     ValidateEndpoint := fun endpoint => inr endpoint;
     S3PathValidator := fun path =>
       if HasPrefix path "s3://" then inr path else inl "not an S3 path";
     ParseQuantity := parseQuantity;
     Client := string;
     NewFromS3Path := fun path =>
       match splitS3Path path with
       | inl err => inl err
       | inr (bucket, _) =>
           if existsb (String.eqb bucket) unreachable
           then inl "bucket region lookup failed"
           else inr bucket
       end;
     IsS3PathFile := fun _ paths =>
       (forallb (fun path => existsb (String.eqb path) objects) paths, None);
     IsS3PathPrefix := fun _ paths =>
       (forallb (fun path => existsb (fun object => HasPrefix object path) objects)
                paths, None);
     S3PathJoin := s3PathJoin;
     SplitS3Path := splitS3Path;
     ListObjects := fun _ bucket prefix => listObjects objects bucket prefix;
     InstanceMetadata_CPU := 4000;
     InstanceMetadata_GPU := gpu;
     _cortexCPUReserve := 800;
     _cortexMemReserve := 500 * Mi;
     _nvidiaCPUReserve := 100;
     _nvidiaMemReserve := 100 * Mi;
     ListVirtualServices := inr services;
     updateMemoryCapacityConfigMap := inr (4096 * Mi) |}.

(** An empty cluster with nothing in storage. *)
Definition empty : World := world [] [] [] 0.

(** The runtime hands out map keys in the order of [elements], or in the
    opposite order. *)
Definition forwards (keys : list string) : list string := keys.
Definition backwards (keys : list string) : list string := rev keys.

Definition rawPredictor (type path : string) (model signatureKey : option string)
  : RawPredictor :=
  {| raw_type := Some type; raw_path := Some path; raw_model := model;
     raw_python_path := None; raw_config := None; raw_env := None;
     raw_signature_key := signatureKey |}.

Definition rawCompute (min max : option Z) (mem : option string) : RawCompute :=
  {| raw_min_replicas := min; raw_max_replicas := max; raw_init_replicas := None;
     raw_target_cpu_utilization := None; raw_cpu := None; raw_mem := mem;
     raw_gpu := None |}.

Definition rawAPI (name : string) (endpoint : option string)
    (predictor : RawPredictor) (compute : option RawCompute) : RawAPI :=
  {| raw_name := Some name; raw_endpoint := endpoint; raw_tracker := None;
     raw_predictor := Some predictor; raw_compute := compute |}.

Definition projectFiles : ProjectFileMap := {["p.py" := []]}.

(** Scenario 1: [{name: "a", predictor: {type: python, path: "p.py"}}] *)
Definition manifest1 : list RawAPI :=
  [rawAPI "a" None (rawPredictor "python" "p.py" None None) None].

(** The API of scenario 1 as structural validation builds it. *)
Definition pythonAPI (name : string) (endpoint : option string) (i : Z)
    (mem : option Quantity) : API :=
  {| Name := name;
     Endpoint := endpoint;
     Tracker_ := None;
     Predictor_ := {| Type_ := PythonPredictorType; Path := "p.py"; Model := None;
                      PythonPath := None; Config := []; Env := ∅;
                      SignatureKey := None |};
     Compute_ := {| MinReplicas := 1; MaxReplicas := 100; InitReplicas := 1;
                    TargetCPUUtilization := 80;
                    CPU := {| Quantity_ := 200; UserString := "200m" |};
                    Mem := mem; GPU := 0 |};
     Index := i;
     FilePath := "cortex.yaml" |}.

(** Two APIs that each ask for 3200Mi of memory. *)
Definition mem3200 : Quantity :=
  {| Quantity_ := 3200 * Mi; UserString := "3200Mi" |}.

Definition hungry : list (option API) :=
  [Some (pythonAPI "a" None 0 (Some mem3200));
   Some (pythonAPI "b" None 1 (Some mem3200))].

(** Scenario 6: two APIs, named differently, both at "/x". *)
Definition sameEndpoint : list (option API) :=
  [Some (pythonAPI "a" (Some "/x") 0 None);
   Some (pythonAPI "b" (Some "/x") 1 None)].

(** Two names, each used twice. *)
Definition twoDuplicates : list (option API) :=
  [Some (pythonAPI "a" None 0 None); Some (pythonAPI "b" None 1 None);
   Some (pythonAPI "a" None 2 None); Some (pythonAPI "b" None 3 None)].

Definition exportAt (dir : string) : list string :=
  [dir +:+ "/saved_model.pb";
   dir +:+ "/variables/variables.data-00000-of-00001";
   dir +:+ "/variables/variables.index"].

(** Versions 10 and 9 of a model under s3://b/m, both complete, in the
    order in which object storage lists keys (byte order, so 10 before 9). *)
Definition twoVersions : World :=
  world (exportAt "s3://b/m/10" ++ exportAt "s3://b/m/9")%list [] [] 0.

(** Scenario 4: version 1 complete, version 2 without its variables. *)
Definition brokenLatest : World :=
  world (exportAt "s3://b/m/1" ++ ["s3://b/m/2/saved_model.pb"])%list [] [] 0.

(** An ONNX predictor whose model lies in a bucket that cannot be opened. *)
Definition unreachableBucket : World := world [] ["down"] [] 0.

Definition onnxPredictor (model signatureKey : option string) : Predictor :=
  {| Type_ := ONNXPredictorType; Path := "p.py"; Model := model;
     PythonPath := None; Config := []; Env := ∅; SignatureKey := signatureKey |}.

(** A predictor of no known type that nevertheless carries a model and a
    signature key. *)
Definition untypedPredictor : Predictor :=
  {| Type_ := UnknownPredictorType; Path := "p.py"; Model := Some "anything";
     PythonPath := Some "p"; Config := []; Env := ∅; SignatureKey := Some "k" |}.

(** Scenario 5: {minReplicas: 5, maxReplicas: 3}, and the compute that
    structural validation makes of it. *)
Definition rawFiveOverThree : option RawCompute :=
  Some (rawCompute (Some 5) (Some 3) None).

Definition fiveOverThree : Compute :=
  {| MinReplicas := 5; MaxReplicas := 3; InitReplicas := 5;
     TargetCPUUtilization := 80;
     CPU := {| Quantity_ := 200; UserString := "200m" |};
     Mem := None; GPU := 0 |}.

(** Scenario 7: a deployment that wants two replicas and has two ready pods
    on the latest spec, progressing since 40 seconds, without an autoscaler. *)
Definition labelled (name : string) : kmeta.ObjectMeta :=
  {| kmeta.Name := name; kmeta.Labels := {["apiName" := "api"]} |}.

Definition rolledOut : Cron.Deployment :=
  {| Cron.DeploymentMeta := labelled "deployment";
     Cron.Replicas := 2;
     Cron.Conditions :=
       [{| Cron.Type_ := Cron.DeploymentProgressing;
           Cron.Status := Cron.ConditionTrue;
           Cron.LastUpdateTime := 1000 * Cron.Second |}] |}.

Definition twoPods : Cron.Kubernetes :=
  {| Cron.HPAs := ∅;
     Cron.Pods := inr [{| Cron.PodMeta := labelled "pod-1"; Cron.Reason := "" |};
                       {| Cron.PodMeta := labelled "pod-2"; Cron.Reason := "" |}] |}.

Definition allReady (pod : Cron.Pod) : bool := true.
Definition allLatest (pod : Cron.Pod) (deployment : Cron.Deployment) : bool := true.

(** Two m5.large workers, one worker without an instance type, and a node
    that is no worker. *)
Definition node (labels : list (string * string)) : Cron.Node :=
  {| Cron.NodeMeta := {| kmeta.Name := "node"; kmeta.Labels := list_to_map labels |} |}.

Definition fleet : list Cron.Node :=
  [node [("workload", "true"); ("beta.kubernetes.io/instance-type", "m5.large")];
   node [("workload", "true"); ("beta.kubernetes.io/instance-type", "m5.large")];
   node [("workload", "true")];
   node [("beta.kubernetes.io/instance-type", "t3.small")]].

End Scenario.

(** What the Go caller of validateAPIs sees: the error. *)
Definition returned {A B : Type} (o : Outcome (A * B)) : Outcome B :=
  match o with
  | Returns (_, b) => Returns b
  | Panics reason => Panics reason
  end.

(** The version the spec gives a directory: its last path component read as
    a number, 0 when it is not one. *)
Definition versionOf (dir : string) : Z :=
  default 0 (ParseInt (List.last (Split dir "/") "")).

(** The three conditions of the spec on an ONNX predictor: the model is
    present, it is a single existing object, signatureKey is absent. *)
Definition onnxConditions (w : World) (predictor : Predictor) : Prop :=
  ∃ model awsClient,
    Model predictor = Some model
    ∧ NewFromS3Path w model = inr awsClient
    ∧ IsS3PathFile w awsClient [model] = (true, None)
    ∧ SignatureKey predictor = None.

(** The claim of the spec about ONNX predictors: no error exactly under the
    three conditions, and otherwise one of the three errors that belong to
    them. *)
Definition onnxClaim (w : World) (predictor : Predictor) : Prop :=
  (validateONNXPredictor w predictor = None ↔ onnxConditions w predictor)
  ∧ (¬ onnxConditions w predictor →
     ∃ err, validateONNXPredictor w predictor = Some err
            ∧ kind err ∈ [FIELD_REQUIRED_FOR_PREDICTOR_TYPE; S3_FILE_NOT_FOUND;
                          FIELD_NOT_SUPPORTED_BY_PREDICTOR_TYPE]).

(** The ordering of the replica bounds (spec, section 3). *)
Definition replicaOrder (compute : Compute) : Prop :=
  0 < MinReplicas compute
  ∧ MinReplicas compute ≤ InitReplicas compute
  ∧ InitReplicas compute ≤ MaxReplicas compute.

(** No gateway-bound virtual service of the cluster serves [endpoint]: the
    gateways of [virtualService] can be read, and when the API gateway is
    among them so can its endpoints, none of which is [endpoint]. *)
Definition quiet (endpoint : string) (virtualService : VirtualService) : Prop :=
  ∃ gateways,
    Gateways virtualService = inr gateways
    ∧ ("apis-gateway" ∈ gateways →
       ∃ endpoints, Endpoints virtualService = inr endpoints
                    ∧ endpoint ∉ endpoints).

(** validateAPI's first step: the endpoint defaults to "/" + name. *)
Definition withEndpoint (api : API) : API :=
  if Endpoint api is None then setEndpoint api (Some ("/" +:+ Name api)) else api.

(** An error that speaks of a duplicate endpoint. *)
Definition duplicateEndpoint (err : Error) : Prop :=
  kind err = DUPLICATE_ENDPOINT_SAME_DEPLOYMENT
  ∨ kind err = DUPLICATE_ENDPOINT_OTHER_DEPLOYMENT.

(** The claim of the spec (scenario 6) about two APIs of one manifest that
    share an endpoint which the cluster does not serve. *)
Definition sharedEndpointClaim (w : World) (rangeOrder : list string → list string)
    (a b : API) (projectFileMap : ProjectFileMap) : Prop :=
  Name a ≠ Name b →
  (∃ endpoint virtualServices,
     Endpoint a = Some endpoint ∧ Endpoint b = Some endpoint
     ∧ ListVirtualServices w = inr virtualServices
     ∧ Forall (quiet endpoint) virtualServices) →
  ∃ err,
    returned (validateAPIs w rangeOrder [Some a; Some b] projectFileMap)
      = Returns (Some err)
    ∧ kind err = DUPLICATE_ENDPOINT_SAME_DEPLOYMENT.

(** ** What a tick of updateHPAs is measured against *)

Section TickSpec.

Variable IsPodReady : Cron.Pod → bool.
Variable IsPodSpecLatest : Cron.Pod → Cron.Deployment → bool.
Variable now : Cron.Time.

Definition apiName (deployment : Cron.Deployment) : string :=
  index (kmeta.Labels (Cron.DeploymentMeta deployment)) "apiName".

(** The number of pods that carry the deployment's API label, are ready and
    run the latest pod spec. *)
Definition readyPods (deployment : Cron.Deployment) (pods : list Cron.Pod) : nat :=
  length (List.filter
            (λ pod, String.eqb (index (kmeta.Labels (Cron.PodMeta pod)) "apiName")
                               (apiName deployment)
                    && (IsPodReady pod && IsPodSpecLatest pod deployment))
            pods).

(** What stands behind an autoscaler created during a tick on cluster [k]
    over [deployments]. *)
Definition justified (k : Cron.Kubernetes) (deployments : list Cron.Deployment)
    (name : string) : Prop :=
  ∃ deployment pods condition,
    deployment ∈ deployments
    ∧ apiName deployment = name
    ∧ (name ∉ Cron.HPAs k)
    ∧ Cron.Pods k = inr pods
    ∧ Cron.Replicas deployment
      ≤ Cron.numUpdatedReadyReplicas IsPodReady IsPodSpecLatest deployment pods
    ∧ condition ∈ Cron.Conditions deployment
    ∧ Cron.Type_ condition = Cron.DeploymentProgressing
    ∧ Cron.Status condition = Cron.ConditionTrue
    ∧ Cron.LastUpdateTime condition ≠ 0
    ∧ Cron.LastUpdateTime condition + 35 * Cron.Second < now.

(** Nothing is left to do for [deployment] on cluster [k] at this instant:
    its autoscaler exists, or the pods cannot be listed, or too few of them
    are ready, or no condition of the deployment is stable. *)
Definition settled (k : Cron.Kubernetes) (deployment : Cron.Deployment) : Prop :=
  apiName deployment ∈ Cron.HPAs k
  ∨ ∀ pods, Cron.Pods k = inr pods →
      Cron.numUpdatedReadyReplicas IsPodReady IsPodSpecLatest deployment pods
        < Cron.Replicas deployment
      ∨ Forall (λ condition, Cron.stable now condition = false)
               (Cron.Conditions deployment).

(** The states a tick on cluster [k] over [deployments] goes through. *)
Definition tickInvariant (k : Cron.Kubernetes) (deployments : list Cron.Deployment)
    (st : Cron.TickState) : Prop :=
  Cron.Pods (Cron.cluster st) = Cron.Pods k
  ∧ Cron.HPAs (Cron.cluster st) = list_to_set (Cron.created st) ∪ Cron.HPAs k
  ∧ NoDup (Cron.created st)
  ∧ (∀ pods, Cron.allPods st = Some pods → Cron.Pods k = inr pods)
  ∧ (∀ name, name ∈ Cron.created st → justified k deployments name).

End TickSpec.

(** ** What the telemetry event is measured against *)

(** The instance-type label of a node, empty when the node has none. *)
Definition typeLabel (node : Cron.Node) : string :=
  index (kmeta.Labels (Cron.NodeMeta node)) "beta.kubernetes.io/instance-type".

(** The number of worker nodes whose instance-type label is [label]. *)
Definition bearing (label : string) (nodes : list Cron.Node) : nat :=
  length (List.filter
            (λ node, Cron.isWorker node && String.eqb (typeLabel node) label) nodes).

(** The number of worker nodes that telemetryCron files under [bucket]. *)
Definition bucketed (bucket : string) (nodes : list Cron.Node) : nat :=
  length (List.filter
            (λ node, Cron.isWorker node
                     && String.eqb (Cron.instanceTypeOf node) bucket) nodes).

Definition workers (nodes : list Cron.Node) : nat :=
  length (List.filter Cron.isWorker nodes).

(** The count an event gives for a bucket, 0 when the bucket is absent. *)
Definition count (event : Cron.Event) (bucket : string) : Z :=
  default 0 (Cron.instanceTypes event !! bucket).

(** The sum of all values of a map of counts. *)
Definition sumValues (counts : gmap string Z) : Z :=
  map_fold (λ _ value acc, value + acc) 0 counts.

(** ** What the validators are measured against *)

(** The APIs of a list that bear [name], in the order of the list. *)
Definition named (name : string) (apis : list API) : list API :=
  List.filter (λ api, String.eqb (Name api) name) apis.

(** The API name a virtual service is labelled with. *)
Definition owner (virtualService : VirtualService) : string :=
  index (kmeta.Labels (ObjectMeta virtualService)) "apiName".

(** [virtualService] does not stand in the way of an API called [name] at
    [endpoint]: its gateways can be read, and when the API gateway is among
    them so can its endpoints, and it serves [endpoint] only if it belongs
    to the API itself. *)
Definition compatible (name endpoint : string) (virtualService : VirtualService)
  : Prop :=
  ∃ gateways,
    Gateways virtualService = inr gateways
    ∧ ("apis-gateway" ∈ gateways →
       ∃ endpoints, Endpoints virtualService = inr endpoints
                    ∧ (endpoint ∈ endpoints → owner virtualService = name)).

(** The CPU a node has left for an API, and the memory taken off maxMem at
    every check. *)
Definition availableCPU (w : World) : Z :=
  InstanceMetadata_CPU w - _cortexCPUReserve w
  - (if 0 <? InstanceMetadata_GPU w then _nvidiaCPUReserve w else 0).

Definition reservedMem (w : World) : Z :=
  _cortexMemReserve w
  + (if 0 <? InstanceMetadata_GPU w then _nvidiaMemReserve w else 0).

(** The directory getTFServingExportFromS3Path derives from a listed key. *)
Definition directoryOf (bucket key : string) : string :=
  "s3://" +:+ filepath_Join [bucket; filepath_Join (removelast (Split key "/"))].

(** A compute mapping without any field, which is what the compute table
    starts from when the manifest entry has no compute at all. *)
Definition emptyCompute : RawCompute :=
  {| raw_min_replicas := None; raw_max_replicas := None;
     raw_init_replicas := None; raw_target_cpu_utilization := None;
     raw_cpu := None; raw_mem := None; raw_gpu := None |}.

(** ** The evicted-pod sweep (deleteEvictedPods of cron.go) *)

Module Sweep.

(** k8s.ReasonEvicted *)
Definition ReasonEvicted : string := "Evicted".

Section Client.

(** config.Kubernetes.DeletePod on a cluster of type [Cluster]: the cluster
    after the call and the error. *)
Variable Cluster : Type.
Variable DeletePod : Cluster → string → Cluster * option Error.

(** The body of the loop of deleteEvictedPods; the state is the cluster and
    errs. *)
Definition sweepStep (st : Cluster * list Error) (pod : Cron.Pod)
  : Cluster * list Error :=
  let '(k, errs) := st in
  if String.eqb (Cron.Reason pod) ReasonEvicted then
    match DeletePod k (kmeta.Name (Cron.PodMeta pod)) with
    | (k, Some err) => (k, (errs ++ [err])%list)
    | (k, None) => (k, errs)
    end
  else st.

(** deleteEvictedPods: the cluster after the sweep and
    errors.FirstError(errs). *)
Definition deleteEvictedPods (k : Cluster) (failedPods : list Cron.Pod)
  : Cluster * option Error :=
  let '(k, errs) := fold_left sweepStep failedPods (k, []) in
  (k, head errs).

End Client.

End Sweep.

(** ** Further inputs for the scenarios *)

Module Examples.

(** A virtual service on the API gateway that serves "/x" for the API
    "other". *)
Definition taken : VirtualService :=
  {| ObjectMeta := {| kmeta.Name := "other";
                      kmeta.Labels := {["apiName" := "other"]} |};
     Gateways := inr {["apis-gateway"]};
     Endpoints := inr {["/x"]} |}.

Definition threeAPIs : list API :=
  [Scenario.pythonAPI "a" None 0 (Some Scenario.mem3200);
   Scenario.pythonAPI "b" (Some "/custom") 1 None;
   Scenario.pythonAPI "c" None 2 None].

(** A manifest whose second entry lacks its name. *)
Definition namelessEntry : RawAPI :=
  {| raw_name := None; raw_endpoint := None; raw_tracker := None;
     raw_predictor := Some (Scenario.rawPredictor "python" "p.py" None None);
     raw_compute := None |}.

Definition nameless : list RawAPI :=
  [Scenario.rawAPI "a" None (Scenario.rawPredictor "python" "p.py" None None) None;
   namelessEntry].

(** A cluster on which every deployment has its autoscaler and the pods
    cannot be listed, and one on which the autoscaler is missing. *)
Definition installed : Cron.Kubernetes :=
  {| Cron.HPAs := {["api"]}; Cron.Pods := inl "pods unavailable" |}.

Definition unlistable : Cron.Kubernetes :=
  {| Cron.HPAs := ∅; Cron.Pods := inl "pods unavailable" |}.

(** Failed pods: two evicted, one failed for another reason. *)
Definition pod (name reason : string) : Cron.Pod :=
  {| Cron.PodMeta := {| kmeta.Name := name; kmeta.Labels := ∅ |};
     Cron.Reason := reason |}.

Definition failedPods : list Cron.Pod :=
  [pod "p1" "Evicted"; pod "p2" "OOMKilled"; pod "p3" "Evicted"].

(** A cluster client that keeps the names of the live pods and refuses to
    delete a pod it does not know. *)
Definition deletePod (live : gset string) (name : string)
  : gset string * option Error :=
  if bool_decide (name ∈ live) then (live ∖ {[name]}, None)
  else (live, Some (ErrorIO "not found")).

End Examples.

(** * Properties *)

(** ** The manifest entry point *)

Lemma extractLoop_prefix w filePath configDataSlice :
  ∀ i apis out,
    extractLoop w filePath i configDataSlice apis = inr out →
    ∃ tail, out = (apis ++ tail)%list ∧ length tail = length configDataSlice.
Proof.
  induction configDataSlice as [|data rest IH]; intros i apis out Hloop; simpl in Hloop.
  - exists []. split; [|done]. rewrite app_nil_r. congruence.
  - destruct (Struct w data) as [err|api]; [done|].
    apply IH in Hloop as (tail & -> & Hlen).
    exists (Some (setProvenance api i filePath) :: tail).
    split; [by rewrite <- app_assoc | simpl; lia].
Qed.

Lemma validateAPIs_nil_head w rangeOrder apis projectFileMap :
  validateAPIs w rangeOrder (None :: apis) projectFileMap = Panics nil_dereference.
Proof. reflexivity. Qed.

(** Whatever the manifest, ExtractAPIConfigs does not return a list of APIs:
    an empty manifest is refused, and a non-empty one reaches validateAPIs
    with a nil pointer in front. *)
Lemma ExtractAPIConfigs_never_accepts w rangeOrder configData projectFileMap filePath apis :
  ExtractAPIConfigs w rangeOrder configData projectFileMap filePath ≠ Returns (inr apis).
Proof.
  unfold ExtractAPIConfigs. destruct configData as [err| |slice]; try done.
  destruct (extractLoop _ _ _ _ _) as [err|out] eqn:Hloop; [done|].
  apply extractLoop_prefix in Hloop as (tail & -> & Hlen).
  destruct slice as [|data rest]; cbn [length replicate app].
  - destruct tail; done.
  - by rewrite validateAPIs_nil_head.
Qed.

(** The list that scenario 1 means, one non-nil entry, passes validateAPIs
    with the endpoint defaulted to "/a". *)
Lemma validateAPIs_scenario1 :
  extractLoop Scenario.empty "cortex.yaml" 0 Scenario.manifest1 []
    = inr [Some (Scenario.pythonAPI "a" None 0 None)]
  ∧ validateAPIs Scenario.empty Scenario.forwards
      [Some (Scenario.pythonAPI "a" None 0 None)] Scenario.projectFiles
    = Returns ([Some (Scenario.pythonAPI "a" (Some "/a") 0 None)], None).
Proof. split; vm_compute; reflexivity. Qed.

(** C1: on the one-entry manifest of scenario 1, with "p.py" among the
    project files and an empty cluster, ExtractAPIConfigs does not return the
    one accepted API: the slice it hands to validateAPIs is a nil pointer
    followed by the API, and the pass stops on the nil pointer. *)
Theorem ExtractAPIConfigs_scenario1_panics :
  ExtractAPIConfigs Scenario.empty Scenario.forwards
    (MapSlice Scenario.manifest1) Scenario.projectFiles "cortex.yaml"
  = Panics nil_dereference.
Proof. vm_compute. reflexivity. Qed.

(** ** Capacity *)

(** Every call of validateAvailableCompute lowers the quantity behind maxMem
    by the reservations, whatever it answers. *)
Lemma validateAvailableCompute_maxMem w compute maxMem :
  (validateAvailableCompute w compute maxMem).1
  = maxMem - _cortexMemReserve w
    - (if 0 <? InstanceMetadata_GPU w then _nvidiaMemReserve w else 0).
Proof.
  unfold validateAvailableCompute.
  destruct (0 <? InstanceMetadata_GPU w); repeat case_match; simpl; lia.
Qed.

(** C2: two APIs that ask for the same 3200Mi on nodes of 4096Mi with 500Mi
    reserved. The first is checked against 3596Mi and passes; the second is
    checked against 3096Mi and is refused, although on its own it passes. *)
Theorem validateAPIs_second_API_sees_less_memory :
  validateCompute Scenario.empty
    (Compute_ (Scenario.pythonAPI "a" None 0 (Some Scenario.mem3200)))
    (4096 * Scenario.Mi)
  = (3596 * Scenario.Mi, None)
  ∧ returned (validateAPIs Scenario.empty Scenario.forwards Scenario.hungry
                Scenario.projectFiles)
    = Returns (Some (Wrap (ErrorNoAvailableNodeComputeLimit "Memory"
                             (3200 * Scenario.Mi) (3096 * Scenario.Mi))
                       [IdentifyAPI "cortex.yaml" "b" 1; Str ComputeKey]))
  ∧ returned (validateAPIs Scenario.empty Scenario.forwards
                (tail Scenario.hungry) Scenario.projectFiles)
    = Returns None.
Proof. repeat split; vm_compute; reflexivity. Qed.

(** ** TensorFlow version resolution *)

Lemma versionStep_valid w bucket awsClient st key :
  (st.2 = "" ∨ isValidTensorFlowS3Directory w st.2 awsClient = true) →
  (versionStep w bucket awsClient st key).2 = ""
  ∨ isValidTensorFlowS3Directory w (versionStep w bucket awsClient st key).2 awsClient
    = true.
Proof.
  intros Hst. destruct st as [highestVersion highestPath]. unfold versionStep.
  destruct (negb _); [done|].
  destruct (_ && _) eqn:Htest; [|done].
  apply andb_true_iff in Htest as [_ Hvalid]. by right.
Qed.

(** What getTFServingExportFromS3Path selects is a valid TensorFlow
    directory. *)
Lemma getTFServingExportFromS3Path_valid w path awsClient selected err :
  getTFServingExportFromS3Path w path awsClient = (selected, err) →
  selected ≠ "" →
  isValidTensorFlowS3Directory w selected awsClient = true.
Proof.
  unfold getTFServingExportFromS3Path.
  destruct (isValidTensorFlowS3Directory w path awsClient) eqn:Hpath.
  { intros [= <- <-] _. done. }
  destruct (SplitS3Path w path) as [msg|[bucket prefix]]; [by intros [= <- <-]|].
  set (contents := ListObjects _ _ _ _). clearbody contents.
  assert (Hinv : ∀ st,
    (st.2 = "" ∨ isValidTensorFlowS3Directory w st.2 awsClient = true) →
    (fold_left (versionStep w bucket awsClient) contents st).2 = ""
    ∨ isValidTensorFlowS3Directory w
        (fold_left (versionStep w bucket awsClient) contents st).2 awsClient = true).
  { induction contents as [|key rest IH]; intros st Hst; [done|].
    simpl. apply IH. by apply versionStep_valid. }
  specialize (Hinv (0, "") (or_introl eq_refl)).
  destruct (fold_left _ _ _) as [v p]. intros [= <- <-] Hne.
  by destruct Hinv.
Qed.

(** Scenario 4 of the spec: version 1 is complete, version 2 lacks its
    variables; the model path is rewritten to version 1. *)
Lemma validateTensorFlowPredictor_scenario4 :
  validateTensorFlowPredictor Scenario.brokenLatest
    {| Type_ := TensorFlowPredictorType; Path := "p.py";
       Model := Some "s3://b/m/"; PythonPath := None; Config := []; Env := ∅;
       SignatureKey := None |}
  = ({| Type_ := TensorFlowPredictorType; Path := "p.py";
        Model := Some "s3://b/m/1"; PythonPath := None; Config := []; Env := ∅;
        SignatureKey := None |}, None).
Proof. vm_compute. reflexivity. Qed.

(** C4: versions 10 and 9 of a model, both complete, listed in key order.
    The model path itself is no TensorFlow directory; resolution selects
    version 9 although version 10 is valid too: the version is read off the
    last component of the key, which is the file name. *)
Theorem getTFServingExportFromS3Path_misses_highest :
  isValidTensorFlowS3Directory Scenario.twoVersions "s3://b/m" "b" = false
  ∧ ListObjects Scenario.twoVersions "b" "b" "m/"
    = ["m/10/saved_model.pb"; "m/10/variables/variables.data-00000-of-00001";
       "m/10/variables/variables.index";
       "m/9/saved_model.pb"; "m/9/variables/variables.data-00000-of-00001";
       "m/9/variables/variables.index"]
  ∧ isValidTensorFlowS3Directory Scenario.twoVersions "s3://b/m/10" "b" = true
  ∧ isValidTensorFlowS3Directory Scenario.twoVersions "s3://b/m/9" "b" = true
  ∧ getTFServingExportFromS3Path Scenario.twoVersions "s3://b/m" "b"
    = ("s3://b/m/9", None)
  ∧ versionOf "s3://b/m/9" < versionOf "s3://b/m/10".
Proof. repeat split; vm_compute; reflexivity. Qed.

(** ** Determinism *)

(** C5: a manifest in which two names are each used twice. With the same
    manifest, project files and cluster, the DUPLICATE_NAME error names the
    two APIs called "a" when the runtime hands out the keys of the map one
    way round, and the two called "b" when it hands them out the other way
    round. *)
Theorem validateAPIs_duplicate_report_depends_on_map_order :
  (∀ keys, Permutation (Scenario.forwards keys) keys)
  ∧ (∀ keys, Permutation (Scenario.backwards keys) keys)
  ∧ returned (validateAPIs Scenario.empty Scenario.forwards
                Scenario.twoDuplicates Scenario.projectFiles)
    = Returns (Some (ErrorDuplicateName
                       [Scenario.pythonAPI "a" None 0 None;
                        Scenario.pythonAPI "a" None 2 None]))
  ∧ returned (validateAPIs Scenario.empty Scenario.backwards
                Scenario.twoDuplicates Scenario.projectFiles)
    = Returns (Some (ErrorDuplicateName
                       [Scenario.pythonAPI "b" None 1 None;
                        Scenario.pythonAPI "b" None 3 None])).
Proof.
  split; [|split; [|split]].
  - intros keys. reflexivity.
  - intros keys. symmetry. apply Permutation_rev.
  - vm_compute. reflexivity.
  - vm_compute. reflexivity.
Qed.

(** ** Predictors *)

Lemma validatePythonPath_ok pythonPath (projectFileMap : ProjectFileMap) fileKey :
  is_Some (projectFileMap !! fileKey) →
  HasPrefix fileKey pythonPath = true →
  validatePythonPath pythonPath projectFileMap = None.
Proof.
  intros [bytes Hfile] Hprefix. unfold validatePythonPath.
  assert (Hex : existsb (λ fileKey, HasPrefix fileKey pythonPath)
                  (map_to_list projectFileMap).*1 = true).
  { apply existsb_exists. exists fileKey. split; [|done].
    apply list_elem_of_In, list_elem_of_fmap. exists (fileKey, bytes).
    split; [done|]. by apply elem_of_map_to_list. }
  by rewrite Hex.
Qed.

(** C10: a predictor whose type is none of Python, TensorFlow and ONNX
    passes validatePredictor as soon as its path is a project file and its
    pythonPath, when set, is the prefix of some project file; its model and
    signatureKey are not looked at, and the predictor is left as it was. *)
Theorem validatePredictor_unknown_type w predictor (projectFileMap : ProjectFileMap) :
  Type_ predictor = UnknownPredictorType →
  is_Some (projectFileMap !! Path predictor) →
  (∀ pythonPath, PythonPath predictor = Some pythonPath →
     ∃ fileKey, is_Some (projectFileMap !! fileKey)
                ∧ HasPrefix fileKey pythonPath = true) →
  validatePredictor w predictor projectFileMap = (predictor, None).
Proof.
  intros Htype [bytes Hpath] Hpython. unfold validatePredictor.
  rewrite Htype, Hpath.
  destruct (PythonPath predictor) as [pythonPath|] eqn:Hpp; [|done].
  destruct (Hpython pythonPath eq_refl) as (fileKey & Hfile & Hprefix).
  by rewrite (validatePythonPath_ok _ _ _ Hfile Hprefix).
Qed.

Lemma validatePredictor_unknown_type_witness :
  validatePredictor Scenario.empty Scenario.untypedPredictor Scenario.projectFiles
  = (Scenario.untypedPredictor, None).
Proof.
  apply (validatePredictor_unknown_type Scenario.empty Scenario.untypedPredictor
           Scenario.projectFiles).
  - reflexivity.
  - exists []. vm_compute. reflexivity.
  - intros pythonPath [= <-]. exists "p.py". split.
    + exists []. vm_compute. reflexivity.
    + vm_compute. reflexivity.
Defined.

(** Scenario 3 of the spec: a Python predictor with a signature key. *)
Lemma validatePythonPredictor_scenario3 predictor key :
  SignatureKey predictor = Some key →
  validatePythonPredictor predictor
  = Some (ErrorFieldNotSupportedByPredictorType SignatureKeyKey PythonPredictorType).
Proof. unfold validatePythonPredictor. by intros ->. Qed.

(** C6, counterexample: the model of an ONNX predictor lies in a bucket
    that cannot be opened. The conditions of the claim do not hold, and the
    error is the one of the failed client, not one of the three. *)
Lemma validateONNXPredictor_client_error :
  ¬ onnxClaim Scenario.unreachableBucket
      (Scenario.onnxPredictor (Some "s3://down/m.onnx") None).
Proof.
  intros [_ Hfail].
  destruct Hfail as (err & Herr & Hkind).
  - intros (model & awsClient & [= <-] & Hclient & _). vm_compute in Hclient. done.
  - vm_compute in Herr. injection Herr as <-. simpl in Hkind.
    repeat (apply elem_of_cons in Hkind as [Hkind|Hkind]; [done|]).
    by apply elem_of_nil in Hkind.
Qed.

(** C6, amended: validateONNXPredictor returns no error exactly when the
    model is present, a client for its bucket can be had, the model is a
    single existing object and signatureKey is absent. Without a model the
    error is FIELD_REQUIRED_FOR_PREDICTOR_TYPE; when the client cannot be had
    it is the client's own error; when the object check fails it is
    S3_FILE_NOT_FOUND; and with all that in order and signatureKey present it
    is FIELD_NOT_SUPPORTED_BY_PREDICTOR_TYPE. *)
Theorem validateONNXPredictor_cases w predictor :
  (validateONNXPredictor w predictor = None ↔ onnxConditions w predictor)
  ∧ (Model predictor = None →
     validateONNXPredictor w predictor
     = Some (ErrorFieldMustBeDefinedForPredictorType ModelKey ONNXPredictorType))
  ∧ (∀ model message,
       Model predictor = Some model → NewFromS3Path w model = inl message →
       validateONNXPredictor w predictor = Some (ErrorIO message))
  ∧ (∀ model awsClient,
       Model predictor = Some model → NewFromS3Path w model = inr awsClient →
       IsS3PathFile w awsClient [model] ≠ (true, None) →
       validateONNXPredictor w predictor
       = Some (Wrap (ErrorS3FileNotFound model) [Str ModelKey]))
  ∧ (∀ model awsClient key,
       Model predictor = Some model → NewFromS3Path w model = inr awsClient →
       IsS3PathFile w awsClient [model] = (true, None) →
       SignatureKey predictor = Some key →
       validateONNXPredictor w predictor
       = Some (ErrorFieldNotSupportedByPredictorType SignatureKeyKey
                 ONNXPredictorType)).
Proof.
  unfold validateONNXPredictor, onnxConditions. repeat split.
  - destruct (Model predictor) as [model|]; [|done].
    destruct (NewFromS3Path w model) as [message|awsClient] eqn:Hclient; [done|].
    destruct (IsS3PathFile w awsClient [model]) as [[|] [message|]] eqn:Hfile;
      try done.
    destruct (SignatureKey predictor) eqn:Hkey; [done|].
    intros _. by exists model, awsClient.
  - intros (model & awsClient & -> & -> & -> & ->). done.
  - by intros ->.
  - by intros model message -> ->.
  - intros model awsClient -> -> Hfile.
    destruct (IsS3PathFile w awsClient [model]) as [[|] [message|]]; done.
  - by intros model awsClient key -> -> -> ->.
Qed.

Lemma validateONNXPredictor_cases_witness :
  validateONNXPredictor Scenario.unreachableBucket
    (Scenario.onnxPredictor (Some "s3://down/m.onnx") None)
  = Some (ErrorIO "bucket region lookup failed").
Proof.
  apply (proj1 (proj2 (proj2 (validateONNXPredictor_cases
           Scenario.unreachableBucket
           (Scenario.onnxPredictor (Some "s3://down/m.onnx") None))))
           "s3://down/m.onnx").
  - reflexivity.
  - vm_compute. reflexivity.
Defined.

(** ** One API *)

Lemma validateAPI_inv w api projectFileMap virtualServices maxMem api' maxMem' err :
  validateAPI w (Some api) projectFileMap virtualServices maxMem
    = Returns (api', maxMem', err) →
  ∃ predictor perr,
    validatePredictor w (Predictor_ api) projectFileMap = (predictor, perr)
    ∧ api' = setPredictor (withEndpoint api) predictor
    ∧ match perr with
      | Some e => err = Some (Wrap e [Identify api'; Str PredictorKey])
                  ∧ maxMem' = maxMem
      | None =>
          ∃ cerr, validateCompute w (Compute_ api) maxMem = (maxMem', cerr)
            ∧ match cerr with
              | Some e => err = Some (Wrap e [Identify api'; Str ComputeKey])
              | None => validateEndpointCollisions api' virtualServices = Returns err
              end
      end.
Proof.
  unfold validateAPI. fold (withEndpoint api).
  assert (Hpred : Predictor_ (withEndpoint api) = Predictor_ api)
    by (unfold withEndpoint; by destruct (Endpoint api)).
  assert (Hcomp : ∀ p, Compute_ (setPredictor (withEndpoint api) p) = Compute_ api)
    by (intros p; unfold withEndpoint; by destruct (Endpoint api)).
  rewrite Hpred.
  destruct (validatePredictor w (Predictor_ api) projectFileMap)
    as [predictor perr] eqn:Hp.
  rewrite Hcomp. intros H. exists predictor, perr. split; [done|].
  destruct perr as [e|].
  { injection H as <- <- <-. done. }
  destruct (validateCompute w (Compute_ api) maxMem) as [m cerr] eqn:Hc.
  destruct cerr as [e|].
  { injection H as <- <- <-. split; [done|]. by exists (Some e). }
  destruct (validateEndpointCollisions _ _) as [r|] eqn:Hep; [|done].
  injection H as <- <- <-. split; [done|]. by exists None.
Qed.

(** ** Replica bounds *)

Lemma intField_lower field bits dflt lower v x :
  intField field bits dflt lower v = inr x → lower ≤ dflt → lower ≤ x.
Proof.
  unfold intField. destruct v as [y|]; [|by intros [= <-]].
  destruct (negb _); [done|]. destruct (y <? lower) eqn:Hlt; [done|].
  intros [= <-] _. lia.
Qed.

(** Structural validation leaves the three replica counts positive. *)
Lemma computeValidation_positive w raw compute :
  computeValidation w raw = inr compute →
  0 < MinReplicas compute ∧ 0 < MaxReplicas compute ∧ 0 < InitReplicas compute.
Proof.
  unfold computeValidation, bindE.
  destruct (intField "min_replicas" _ _ _ _) as [|minReplicas] eqn:Hmin; [done|].
  destruct (intField "max_replicas" _ _ _ _) as [|maxReplicas] eqn:Hmax; [done|].
  destruct (intField "init_replicas" _ _ _ _) as [|initReplicas] eqn:Hinit; [done|].
  repeat case_match; try done. intros [= <-]. simpl.
  apply intField_lower in Hmin; [|lia]. apply intField_lower in Hmax; [|lia].
  apply intField_lower in Hinit; lia.
Qed.

Lemma validateCompute_accepts w compute maxMem maxMem' :
  validateCompute w compute maxMem = (maxMem', None) →
  MinReplicas compute ≤ InitReplicas compute
  ∧ InitReplicas compute ≤ MaxReplicas compute.
Proof.
  unfold validateCompute.
  destruct (MaxReplicas compute <? MinReplicas compute) eqn:H1; [done|].
  destruct (MaxReplicas compute <? InitReplicas compute) eqn:H2; [done|].
  destruct (InitReplicas compute <? MinReplicas compute) eqn:H3; [done|].
  intros _. lia.
Qed.

Lemma validateCompute_rejects w compute maxMem :
  ¬ (MinReplicas compute ≤ InitReplicas compute
     ∧ InitReplicas compute ≤ MaxReplicas compute) →
  ∃ err, validateCompute w compute maxMem = (maxMem, Some err)
         ∧ kind err = REPLICA_BOUND_VIOLATION.
Proof.
  intros Hbad. unfold validateCompute.
  destruct (MaxReplicas compute <? MinReplicas compute) eqn:H1; [by eexists|].
  destruct (MaxReplicas compute <? InitReplicas compute) eqn:H2; [by eexists|].
  destruct (InitReplicas compute <? MinReplicas compute) eqn:H3; [by eexists|].
  lia.
Qed.

(** Every API of an accepted list went through validateCompute without an
    error. *)
Lemma validateAll_accepts w projectFileMap virtualServices apis :
  ∀ maxMem apis' maxMem',
    validateAll w projectFileMap virtualServices maxMem apis
      = Returns (apis', maxMem', None) →
    Forall (λ entry, ∃ api m m', entry = Some api
                                 ∧ validateCompute w (Compute_ api) m = (m', None))
           apis'.
Proof.
  induction apis as [|entry rest IH]; intros maxMem apis' maxMem' Hall;
    simpl in Hall.
  { injection Hall as <- <-. constructor. }
  destruct entry as [api|]; [|done].
  destruct (validateAPI w (Some api) _ _ _) as [[[api1 m1] [e|]]|] eqn:Hapi;
    [done| |done].
  destruct (validateAll w _ _ m1 rest) as [[[rest1 m2] err]|] eqn:Hrest; [|done].
  injection Hall as <- <- ->.
  apply validateAPI_inv in Hapi as (predictor & perr & Hp & -> & Hcases).
  destruct perr as [e|]; [by destruct Hcases|].
  destruct Hcases as (cerr & Hc & Hcases). destruct cerr as [e|]; [done|].
  constructor; [|by eapply IH].
  exists (setPredictor (withEndpoint api) predictor), maxMem, m1. split; [done|].
  unfold withEndpoint. by destruct (Endpoint api).
Qed.



(** ** Endpoints *)

Lemma endpointLoop_absent api apiEndpoint apiName endpoints :
  Endpoint api = Some apiEndpoint →
  apiEndpoint ∉ endpoints →
  endpointLoop api apiName endpoints = Returns None.
Proof.
  intros Hep. induction endpoints as [|endpoint rest IH]; intros Hnot; simpl; [done|].
  rewrite Hep. apply not_elem_of_cons in Hnot as [Hne Hrest].
  assert (String.eqb endpoint apiEndpoint = false) as ->
    by (apply String.eqb_neq; congruence).
  simpl. by apply IH.
Qed.

Lemma validateEndpointCollisions_quiet api apiEndpoint virtualServices :
  Endpoint api = Some apiEndpoint →
  Forall (quiet apiEndpoint) virtualServices →
  validateEndpointCollisions api virtualServices = Returns None.
Proof.
  intros Hep. induction 1 as [|virtualService rest Hquiet _ IH]; simpl; [done|].
  destruct Hquiet as (gateways & -> & Hserved).
  destruct (bool_decide ("apis-gateway" ∈ gateways)) eqn:Hgw; simpl; [|done].
  apply bool_decide_eq_true in Hgw.
  destruct (Hserved Hgw) as (endpoints & -> & Hnot).
  rewrite (endpointLoop_absent _ apiEndpoint); [done|done|].
  by rewrite elem_of_elements.
Qed.

Lemma validatePredictor_no_endpoint_error w predictor projectFileMap predictor' err :
  validatePredictor w predictor projectFileMap = (predictor', Some err) →
  ¬ duplicateEndpoint err.
Proof.
  unfold validatePredictor, validatePythonPredictor, validateTensorFlowPredictor,
    validateONNXPredictor, validatePythonPath, duplicateEndpoint.
  intros H [Hk|Hk]; repeat case_match; simplify_eq; simpl in Hk; done.
Qed.

Lemma validateCompute_no_endpoint_error w compute maxMem maxMem' err :
  validateCompute w compute maxMem = (maxMem', Some err) →
  ¬ duplicateEndpoint err.
Proof.
  unfold validateCompute, validateAvailableCompute, duplicateEndpoint.
  intros H [Hk|Hk]; repeat case_match; simplify_eq; simpl in Hk; done.
Qed.

Lemma firstGroup_short (names : gmap string (list API)) keys :
  (∀ name group, names !! name = Some group → (length group ≤ 1)%nat) →
  firstGroup names keys = [].
Proof.
  intros Hshort. induction keys as [|name rest IH]; simpl; [done|].
  destruct (names !! name) as [group|] eqn:Hname; simpl; [|done].
  apply Hshort in Hname.
  destruct (1 <? length group)%nat eqn:Hlt; [|done].
  apply Nat.ltb_lt in Hlt. lia.
Qed.

Lemma findDuplicateNames_two rangeOrder a b :
  Name a ≠ Name b →
  findDuplicateNames rangeOrder [Some a; Some b] = Returns [].
Proof.
  intros Hne. unfold findDuplicateNames. simpl.
  rewrite lookup_empty, lookup_insert_ne, lookup_empty by done. simpl.
  f_equal. apply firstGroup_short. intros name group.
  rewrite lookup_insert. case_decide; [by intros [= <-]|].
  rewrite lookup_insert. case_decide; [by intros [= <-]|].
  by rewrite lookup_empty.
Qed.

Lemma validateAPI_quiet w api apiEndpoint projectFileMap virtualServices
    maxMem api' maxMem' err :
  Endpoint api = Some apiEndpoint →
  Forall (quiet apiEndpoint) virtualServices →
  validateAPI w (Some api) projectFileMap virtualServices maxMem
    = Returns (api', maxMem', Some err) →
  ¬ duplicateEndpoint err.
Proof.
  intros Hep Hquiet Hapi.
  apply validateAPI_inv in Hapi as (predictor & perr & Hp & -> & Hcases).
  destruct perr as [e|].
  { destruct Hcases as [[= ->] _].
    by apply validatePredictor_no_endpoint_error in Hp. }
  destruct Hcases as (cerr & Hc & Hcases). destruct cerr as [e|].
  { injection Hcases as ->. by apply validateCompute_no_endpoint_error in Hc. }
  rewrite (validateEndpointCollisions_quiet _ apiEndpoint) in Hcases; [done| |done].
  unfold withEndpoint. by rewrite Hep.
Qed.

Lemma validateAPI_passes w api apiEndpoint projectFileMap virtualServices
    maxMem predictor maxMem' :
  Endpoint api = Some apiEndpoint →
  Forall (quiet apiEndpoint) virtualServices →
  validatePredictor w (Predictor_ api) projectFileMap = (predictor, None) →
  validateCompute w (Compute_ api) maxMem = (maxMem', None) →
  validateAPI w (Some api) projectFileMap virtualServices maxMem
    = Returns (setPredictor api predictor, maxMem', None).
Proof.
  intros Hep Hquiet Hp Hc. unfold validateAPI. rewrite Hep, Hp. simpl.
  rewrite Hc.
  by rewrite (validateEndpointCollisions_quiet _ apiEndpoint).
Qed.

(** C3, counterexample: scenario 6 on an empty cluster. "a" and "b", both
    at "/x", are both accepted. *)
Lemma validateAPIs_accepts_shared_endpoint :
  ¬ sharedEndpointClaim Scenario.empty Scenario.forwards
      (Scenario.pythonAPI "a" (Some "/x") 0 None)
      (Scenario.pythonAPI "b" (Some "/x") 1 None)
      Scenario.projectFiles.
Proof.
  intros Hclaim. destruct Hclaim as (err & Herr & _).
  - done.
  - exists "/x", []. repeat split; constructor.
  - vm_compute in Herr. done.
Qed.

(** C3, amended: two APIs of one manifest with distinct names and the same
    endpoint, which no virtual service of the cluster serves. The pass
    reports no duplicate-endpoint error, and it accepts both APIs whenever
    each passes its predictor and compute checks: endpoints are compared
    with those of the cluster's virtual services only. *)
Theorem validateAPIs_shared_endpoint w rangeOrder a b endpoint
    (projectFileMap : ProjectFileMap) virtualServices maxMem :
  Name a ≠ Name b →
  Endpoint a = Some endpoint →
  Endpoint b = Some endpoint →
  ListVirtualServices w = inr virtualServices →
  updateMemoryCapacityConfigMap w = inr maxMem →
  Forall (quiet endpoint) virtualServices →
  (∀ apis err,
     validateAPIs w rangeOrder [Some a; Some b] projectFileMap
       = Returns (apis, Some err) →
     ¬ duplicateEndpoint err)
  ∧ (∀ pa pb maxMem1 maxMem2,
       validatePredictor w (Predictor_ a) projectFileMap = (pa, None) →
       validateCompute w (Compute_ a) maxMem = (maxMem1, None) →
       validatePredictor w (Predictor_ b) projectFileMap = (pb, None) →
       validateCompute w (Compute_ b) maxMem1 = (maxMem2, None) →
       validateAPIs w rangeOrder [Some a; Some b] projectFileMap
         = Returns ([Some (setPredictor a pa); Some (setPredictor b pb)], None)).
Proof.
  intros Hne Ha Hb Hvs Hmem Hquiet.
  assert (Hstart : ∀ (k : Outcome (list (option API) * option Error)),
    validateAPIs w rangeOrder [Some a; Some b] projectFileMap = k →
    match validateAll w projectFileMap virtualServices maxMem [Some a; Some b] with
    | Panics reason => Panics reason
    | Returns (apis, _, err) => Returns (apis, err)
    end = k).
  { intros k <-. unfold validateAPIs. cbn [length Nat.eqb].
    rewrite (findDuplicateNames_two _ _ _ Hne). cbn [length Nat.ltb Nat.leb].
    unfold getValidationK8sResources. by rewrite Hvs, Hmem. }
  split.
  - intros apis err Hpass. apply Hstart in Hpass. cbn [validateAll] in Hpass.
    destruct (validateAPI w (Some a) _ _ _) as [[[a1 m1] ea]|] eqn:Hapi_a; [|done].
    destruct ea as [ea|].
    { injection Hpass as <- <-.
      exact (validateAPI_quiet w a endpoint _ _ _ _ _ _ Ha Hquiet Hapi_a). }
    destruct (validateAPI w (Some b) _ _ _) as [[[b1 m2] eb]|] eqn:Hapi_b; [|done].
    destruct eb as [eb|]; [|done].
    injection Hpass as <- <-.
    exact (validateAPI_quiet w b endpoint _ _ _ _ _ _ Hb Hquiet Hapi_b).
  - intros pa pb maxMem1 maxMem2 Hpa Hca Hpb Hcb.
    rewrite <- (Hstart _ eq_refl). cbn [validateAll].
    rewrite (validateAPI_passes w a endpoint _ _ _ pa maxMem1) by done.
    by rewrite (validateAPI_passes w b endpoint _ _ _ pb maxMem2).
Qed.

Lemma validateAPIs_shared_endpoint_witness :
  validateAPIs Scenario.empty Scenario.forwards Scenario.sameEndpoint
    Scenario.projectFiles
  = Returns (Scenario.sameEndpoint, None).
Proof.
  apply (proj2 (validateAPIs_shared_endpoint Scenario.empty Scenario.forwards
                  (Scenario.pythonAPI "a" (Some "/x") 0 None)
                  (Scenario.pythonAPI "b" (Some "/x") 1 None)
                  "/x" Scenario.projectFiles [] (4096 * Scenario.Mi)
                  ltac:(done) eq_refl eq_refl eq_refl eq_refl ltac:(constructor))
           _ _ (3596 * Scenario.Mi) (3096 * Scenario.Mi)).
  - vm_compute. reflexivity.
  - vm_compute. reflexivity.
  - vm_compute. reflexivity.
  - vm_compute. reflexivity.
Defined.

(** ** Telemetry *)

Lemma int64_small x : - 2 ^ 63 ≤ x < 2 ^ 63 → int64 x = x.
Proof.
  intros Hx. unfold int64, wrap.
  change (2 ^ (64 - 1)) with (2 ^ 63). change (2 ^ 64) with (2 * 2 ^ 63).
  rewrite Z.mod_small; lia.
Qed.

Lemma sumValues_insert (counts : gmap string Z) bucket value :
  sumValues (<[bucket := value]> counts)
  = sumValues counts - default 0 (counts !! bucket) + value.
Proof.
  unfold sumValues.
  destruct (counts !! bucket) as [old|] eqn:Hold; simpl.
  - rewrite <- (insert_delete_eq counts).
    rewrite map_fold_insert_L; [|intros; lia|by rewrite lookup_delete_eq].
    rewrite (map_fold_delete_L _ _ bucket old counts); [lia|intros; lia|done].
  - rewrite map_fold_insert_L; [lia|intros; lia|done].
Qed.

Lemma bucketed_snoc bucket nodes node :
  bucketed bucket (nodes ++ [node])
  = (bucketed bucket nodes
     + if Cron.isWorker node && String.eqb (Cron.instanceTypeOf node) bucket
       then 1 else 0)%nat.
Proof.
  unfold bucketed. rewrite List.filter_app, length_app. simpl.
  by destruct (_ && _).
Qed.

Lemma workers_snoc nodes node :
  workers (nodes ++ [node])
  = (workers nodes + if Cron.isWorker node then 1 else 0)%nat.
Proof.
  unfold workers. rewrite List.filter_app, length_app. simpl.
  by destruct (Cron.isWorker node).
Qed.

Lemma bucketed_le bucket nodes : (bucketed bucket nodes ≤ length nodes)%nat.
Proof. apply List.filter_length_le. Qed.

Lemma workers_le nodes : (workers nodes ≤ length nodes)%nat.
Proof. apply List.filter_length_le. Qed.

(** The state of the loop of telemetryCron after any number of nodes, as
    long as no counter can overflow. *)
Lemma countNode_invariant nodes :
  Z.of_nat (length nodes) < 2 ^ 63 →
  (∀ bucket, default 0 ((fold_left Cron.countNode nodes (∅, 0)).1 !! bucket)
             = Z.of_nat (bucketed bucket nodes))
  ∧ (∀ bucket, is_Some ((fold_left Cron.countNode nodes (∅, 0)).1 !! bucket) →
               (0 < bucketed bucket nodes)%nat)
  ∧ (fold_left Cron.countNode nodes (∅, 0)).2 = Z.of_nat (workers nodes)
  ∧ sumValues (fold_left Cron.countNode nodes (∅, 0)).1
    = (fold_left Cron.countNode nodes (∅, 0)).2.
Proof.
  induction nodes as [|node nodes IH] using rev_ind; intros Hlen.
  { simpl. repeat split; try done.
    intros bucket [x Hx]. by rewrite lookup_empty in Hx. }
  rewrite length_app in Hlen. simpl in Hlen.
  destruct IH as (Hcount & Hsome & Htotal & Hsum); [lia|].
  rewrite fold_left_app. simpl.
  destruct (fold_left Cron.countNode nodes (∅, 0)) as [counts total].
  simpl in Hcount, Hsome, Htotal, Hsum.
  unfold Cron.countNode.
  setoid_rewrite bucketed_snoc. rewrite workers_snoc.
  destruct (Cron.isWorker node); simpl.
  2:{ repeat split; intros; rewrite ?Nat.add_0_r; auto. }
  pose proof (bucketed_le (Cron.instanceTypeOf node) nodes) as Hle.
  pose proof (workers_le nodes) as Hle'.
  rewrite !int64_small by (rewrite ?Hcount; lia).
  repeat split.
  - intros bucket. rewrite lookup_insert. case_decide as Heq.
    + subst bucket. rewrite String.eqb_refl. simpl. rewrite Hcount. lia.
    + apply String.eqb_neq in Heq. rewrite Heq, Nat.add_0_r. apply Hcount.
  - intros bucket. rewrite lookup_insert. case_decide as Heq.
    + subst bucket. rewrite String.eqb_refl. lia.
    + apply String.eqb_neq in Heq. rewrite Heq, Nat.add_0_r. apply Hsome.
  - lia.
  - rewrite sumValues_insert. lia.
Qed.

(** Nodes that are no workers leave the loop of telemetryCron where it
    was. *)
Lemma countNode_workers_only nodes st :
  fold_left Cron.countNode nodes st
  = fold_left Cron.countNode (List.filter Cron.isWorker nodes) st.
Proof.
  revert st. induction nodes as [|node nodes IH]; intros st; simpl; [done|].
  destruct (Cron.isWorker node) eqn:Hworker; simpl.
  - apply IH.
  - rewrite <- IH. f_equal. unfold Cron.countNode. destruct st.
    by rewrite Hworker.
Qed.

Lemma bucketed_label label nodes :
  label ≠ "" → label ≠ "unknown" → bucketed label nodes = bearing label nodes.
Proof.
  intros Hne Hnu. unfold bucketed, bearing. f_equal.
  apply List.filter_ext. intros node. f_equal.
  unfold Cron.instanceTypeOf. fold (typeLabel node).
  destruct (String.eqb (typeLabel node) "") eqn:Hempty.
  - apply String.eqb_eq in Hempty. rewrite Hempty.
    transitivity false; [|symmetry]; apply String.eqb_neq; congruence.
  - done.
Qed.

Lemma bucketed_unknown nodes :
  bucketed "unknown" nodes = (bearing "" nodes + bearing "unknown" nodes)%nat.
Proof.
  unfold bucketed, bearing. induction nodes as [|node nodes IH]; simpl; [done|].
  unfold Cron.instanceTypeOf at 1. fold (typeLabel node).
  destruct (Cron.isWorker node); simpl; [|done].
  destruct (String.eqb (typeLabel node) "") eqn:Hempty.
  - apply String.eqb_eq in Hempty. rewrite Hempty. simpl. lia.
  - destruct (String.eqb (typeLabel node) "unknown"); simpl; lia.
Qed.

(** C9: whatever nodes the cluster lists, telemetryCron sends one event.
    Its instanceCount is the number of worker nodes (workload=true) and the
    sum of all values of instanceTypes; the value under an instance type is
    the number of worker nodes bearing that label; worker nodes without the
    label are counted under "unknown"; no bucket is empty; and nodes that
    are no workers change nothing. *)
Theorem telemetryCron_counts_workers (nodes : list Cron.Node) :
  Z.of_nat (length nodes) < 2 ^ 63 →
  ∃ event,
    Cron.telemetryCron (inr nodes) = (Some event, None)
    ∧ Cron.instanceCount event = Z.of_nat (workers nodes)
    ∧ Cron.instanceCount event = sumValues (Cron.instanceTypes event)
    ∧ (∀ label, label ≠ "" → label ≠ "unknown" →
         count event label = Z.of_nat (bearing label nodes))
    ∧ count event "unknown"
      = Z.of_nat (bearing "" nodes + bearing "unknown" nodes)
    ∧ (∀ bucket value, Cron.instanceTypes event !! bucket = Some value → 0 < value)
    ∧ Cron.telemetryCron (inr (List.filter Cron.isWorker nodes))
      = (Some event, None).
Proof.
  intros Hlen.
  destruct (countNode_invariant nodes Hlen) as (Hcount & Hsome & Htotal & Hsum).
  unfold Cron.telemetryCron. rewrite <- countNode_workers_only.
  destruct (fold_left Cron.countNode nodes (∅, 0)) as [counts total].
  simpl in *. eexists. split; [reflexivity|]. unfold count. simpl.
  repeat split.
  - done.
  - congruence.
  - intros label Hne Hnu. by rewrite Hcount, bucketed_label.
  - by rewrite Hcount, bucketed_unknown.
  - intros bucket value Hvalue.
    specialize (Hcount bucket). specialize (Hsome bucket).
    rewrite Hvalue in Hcount, Hsome. simpl in Hcount.
    specialize (Hsome (mk_is_Some _ _ eq_refl)). lia.
Qed.

Lemma telemetryCron_counts_workers_witness :
  ∃ event,
    Cron.telemetryCron (inr Scenario.fleet) = (Some event, None)
    ∧ Cron.instanceCount event = Z.of_nat (workers Scenario.fleet)
    ∧ Cron.instanceCount event = sumValues (Cron.instanceTypes event)
    ∧ (∀ label, label ≠ "" → label ≠ "unknown" →
         count event label = Z.of_nat (bearing label Scenario.fleet))
    ∧ count event "unknown"
      = Z.of_nat (bearing "" Scenario.fleet + bearing "unknown" Scenario.fleet)
    ∧ (∀ bucket value, Cron.instanceTypes event !! bucket = Some value → 0 < value)
    ∧ Cron.telemetryCron (inr (List.filter Cron.isWorker Scenario.fleet))
      = (Some event, None).
Proof.
  apply (telemetryCron_counts_workers Scenario.fleet).
  vm_compute. reflexivity.
Defined.

(** The event of the fleet of the scenario. *)
Lemma telemetryCron_fleet :
  Cron.telemetryCron (inr Scenario.fleet)
  = (Some {| Cron.instanceTypes := {["m5.large" := 2; "unknown" := 1]};
             Cron.instanceCount := 3 |}, None).
Proof. vm_compute. reflexivity. Qed.

(** ** Autoscalers *)

Lemma int32_small x : - 2 ^ 31 ≤ x < 2 ^ 31 → int32 x = x.
Proof.
  intros Hx. unfold int32, wrap.
  change (2 ^ (32 - 1)) with (2 ^ 31). change (2 ^ 32) with (2 * 2 ^ 31).
  rewrite Z.mod_small; lia.
Qed.

Lemma int32_range x : - 2 ^ 31 ≤ int32 x < 2 ^ 31.
Proof.
  unfold int32, wrap.
  change (2 ^ (32 - 1)) with (2 ^ 31). change (2 ^ 32) with (2 * 2 ^ 31).
  pose proof (Z.mod_pos_bound (x + 2 ^ 31) (2 * 2 ^ 31)). lia.
Qed.

Lemma int32_succ x : int32 (int32 x + 1) = int32 (x + 1).
Proof.
  unfold int32, wrap. f_equal.
  replace ((x + 2 ^ (32 - 1)) mod 2 ^ 32 - 2 ^ (32 - 1) + 1 + 2 ^ (32 - 1))
    with ((x + 2 ^ (32 - 1)) mod 2 ^ 32 + 1) by lia.
  rewrite Zplus_mod_idemp_l. f_equal. lia.
Qed.

Section TickProofs.

Variable IsPodReady : Cron.Pod → bool.
Variable IsPodSpecLatest : Cron.Pod → Cron.Deployment → bool.
Variable now : Cron.Time.

Local Abbreviation numUpdatedReadyReplicas :=
  (Cron.numUpdatedReadyReplicas IsPodReady IsPodSpecLatest).
Local Abbreviation ready := (readyPods IsPodReady IsPodSpecLatest).
Local Abbreviation stable := (Cron.stable now).
Local Abbreviation conditionStep := (Cron.conditionStep now).
Local Abbreviation deploymentStep :=
  (Cron.deploymentStep IsPodReady IsPodSpecLatest now).
Local Abbreviation tick := (Cron.tick IsPodReady IsPodSpecLatest now).
Local Abbreviation justified := (justified IsPodReady IsPodSpecLatest now).
Local Abbreviation settled := (settled IsPodReady IsPodSpecLatest now).
Local Abbreviation invariant := (tickInvariant IsPodReady IsPodSpecLatest now).

(** The int32 counter of numUpdatedReadyReplicas is the number of ready,
    up-to-date pods of the deployment, wrapped to 32 bits. *)
Lemma numUpdatedReadyReplicas_count deployment pods :
  numUpdatedReadyReplicas deployment pods
  = int32 (Z.of_nat (ready deployment pods)).
Proof.
  unfold Cron.numUpdatedReadyReplicas, readyPods.
  induction pods as [|pod pods IH] using rev_ind; [done|].
  rewrite fold_left_app, List.filter_app, length_app. simpl.
  rewrite IH. fold (apiName deployment).
  destruct (String.eqb _ (apiName deployment)); simpl.
  - destruct (IsPodReady pod && IsPodSpecLatest pod deployment); simpl.
    + rewrite int32_succ. f_equal. lia.
    + f_equal. lia.
  - f_equal. lia.
Qed.

Lemma numUpdatedReadyReplicas_enough deployment pods :
  Cron.Replicas deployment < 2 ^ 31 →
  Cron.Replicas deployment ≤ numUpdatedReadyReplicas deployment pods →
  Cron.Replicas deployment ≤ Z.of_nat (ready deployment pods).
Proof.
  intros Hfits. rewrite numUpdatedReadyReplicas_count.
  destruct (Z_lt_dec (Z.of_nat (ready deployment pods)) (2 ^ 31)) as [Hlt|Hge].
  - rewrite int32_small; lia.
  - lia.
Qed.

Lemma stable_spec condition :
  stable condition = true ↔
  Cron.Type_ condition = Cron.DeploymentProgressing
  ∧ Cron.Status condition = Cron.ConditionTrue
  ∧ Cron.LastUpdateTime condition ≠ 0
  ∧ Cron.LastUpdateTime condition + 35 * Cron.Second < now.
Proof.
  unfold Cron.stable, Cron.IsZero, Cron.After, Cron.Add.
  rewrite !andb_true_iff, !bool_decide_eq_true, negb_true_iff, Z.eqb_neq, Z.ltb_lt.
  tauto.
Qed.

(** What one pass of the loop over the conditions does to the state. *)
Lemma conditionStep_cases deployment st condition :
  (stable condition = false ∧ conditionStep deployment st condition = st)
  ∨ (stable condition = true
     ∧ apiName deployment ∈ Cron.HPAs (Cron.cluster st)
     ∧ Cron.cluster (conditionStep deployment st condition) = Cron.cluster st
     ∧ Cron.allPods (conditionStep deployment st condition) = Cron.allPods st
     ∧ Cron.created (conditionStep deployment st condition) = Cron.created st)
  ∨ (stable condition = true
     ∧ (apiName deployment ∉ Cron.HPAs (Cron.cluster st))
     ∧ Cron.HPAs (Cron.cluster (conditionStep deployment st condition))
       = {[apiName deployment]} ∪ Cron.HPAs (Cron.cluster st)
     ∧ Cron.Pods (Cron.cluster (conditionStep deployment st condition))
       = Cron.Pods (Cron.cluster st)
     ∧ Cron.allPods (conditionStep deployment st condition) = Cron.allPods st
     ∧ Cron.created (conditionStep deployment st condition)
       = apiName deployment :: Cron.created st).
Proof.
  unfold Cron.conditionStep, Cron.CreateHPA, Cron.hpaSpec.
  fold (apiName deployment).
  destruct (stable condition); [|by left]. right.
  destruct (bool_decide (apiName deployment ∈ Cron.HPAs (Cron.cluster st))) eqn:Hin.
  - apply bool_decide_eq_true in Hin. by left.
  - apply bool_decide_eq_false in Hin. by right.
Qed.

Lemma conditions_fold k deployments deployment pods conditions :
  deployment ∈ deployments →
  Cron.Pods k = inr pods →
  Cron.Replicas deployment ≤ numUpdatedReadyReplicas deployment pods →
  (∀ condition, condition ∈ conditions →
                condition ∈ Cron.Conditions deployment) →
  ∀ st,
    invariant k deployments st →
    invariant k deployments (fold_left (conditionStep deployment) conditions st)
    ∧ Cron.allPods (fold_left (conditionStep deployment) conditions st)
      = Cron.allPods st
    ∧ Cron.HPAs (Cron.cluster st)
      ⊆ Cron.HPAs (Cron.cluster (fold_left (conditionStep deployment) conditions st))
    ∧ (apiName deployment
         ∈ Cron.HPAs (Cron.cluster (fold_left (conditionStep deployment) conditions st))
       ∨ Forall (λ condition, stable condition = false) conditions).
Proof.
  intros Hin Hpods Hready.
  induction conditions as [|condition rest IH]; intros Hsub st Hinv; simpl.
  { split; [exact Hinv|]. split; [done|]. split; [done|]. right. constructor. }
  assert (Hrest : ∀ c, c ∈ rest → c ∈ Cron.Conditions deployment)
    by (intros c Hc; apply Hsub; by right).
  assert (Hcond : condition ∈ Cron.Conditions deployment) by (apply Hsub; by left).
  destruct (conditionStep_cases deployment st condition)
    as [[Hunstable ->]|[(Hstable & Hhas & Hk & Hp & Hc)
                       |(Hstable & Hfresh & Hk & Hp & Hap & Hc)]].
  - destruct (IH Hrest st Hinv) as (Hinv' & Hall & Hmono & Hend).
    split; [exact Hinv'|]. split; [done|]. split; [done|].
    destruct Hend as [Hend|Hend]; [by left|]. right. by constructor.
  - set (st1 := conditionStep deployment st condition) in *.
    assert (Hinv1 : invariant k deployments st1).
    { destruct Hinv as (H1 & H2 & H3 & H4 & H5).
      unfold tickInvariant. rewrite Hk, Hp, Hc. done. }
    destruct (IH Hrest st1 Hinv1) as (Hinv' & Hall & Hmono & Hend).
    rewrite Hk in Hmono.
    split; [exact Hinv'|]. split; [congruence|]. split; [done|].
    left. by apply Hmono.
  - set (st1 := conditionStep deployment st condition) in *.
    destruct Hinv as (H1 & H2 & H3 & H4 & H5).
    assert (Hnew : apiName deployment ∉ Cron.created st).
    { intros Hold. apply Hfresh. rewrite H2.
      by apply elem_of_union_l, elem_of_list_to_set. }
    assert (Hinv1 : invariant k deployments st1).
    { unfold tickInvariant. rewrite Hk, Hp, Hap, Hc.
      repeat split.
      - done.
      - rewrite H2. simpl. by rewrite (assoc_L (∪)).
      - by constructor.
      - done.
      - intros name [->|Hold]%elem_of_cons; [|by apply H5].
        exists deployment, pods, condition.
        apply stable_spec in Hstable.
        repeat split; try done; try tauto.
        intros Hk0. apply Hfresh. rewrite H2. by apply elem_of_union_r. }
    destruct (IH Hrest st1 Hinv1) as (Hinv' & Hall & Hmono & Hend).
    rewrite Hk in Hmono.
    split; [exact Hinv'|]. split; [congruence|].
    split; [by etrans; [apply union_subseteq_r|]|].
    left. by apply Hmono, elem_of_union_l, elem_of_singleton.
Qed.

Lemma conditions_fold_unstable deployment conditions st :
  Forall (λ condition, stable condition = false) conditions →
  fold_left (conditionStep deployment) conditions st = st.
Proof.
  induction 1 as [|condition rest Hunstable _ IH]; simpl; [done|].
  unfold Cron.conditionStep at 2. by rewrite Hunstable.
Qed.

Lemma settled_mono k1 k2 deployment :
  Cron.Pods k2 = Cron.Pods k1 →
  Cron.HPAs k1 ⊆ Cron.HPAs k2 →
  settled k1 deployment → settled k2 deployment.
Proof.
  intros Hpods Hmono [Hhas|Hidle]; [left; by apply Hmono|].
  right. intros pods. rewrite Hpods. apply Hidle.
Qed.

(** The deployment at hand once its pods are listed. *)
Lemma deploymentStep_listed k deployments deployment st pods :
  deployment ∈ deployments →
  invariant k deployments st →
  Cron.Pods k = inr pods →
  let st1 := {| Cron.cluster := Cron.cluster st; Cron.allPods := Some pods;
                Cron.errs := Cron.errs st; Cron.created := Cron.created st |} in
  let st2 :=
    if numUpdatedReadyReplicas deployment pods <? Cron.Replicas deployment
    then st1
    else fold_left (conditionStep deployment) (Cron.Conditions deployment) st1 in
  invariant k deployments st2
  ∧ Cron.HPAs (Cron.cluster st) ⊆ Cron.HPAs (Cron.cluster st2)
  ∧ settled (Cron.cluster st2) deployment.
Proof.
  intros Hin Hinv Hpods st1 st2.
  assert (Hinv1 : invariant k deployments st1).
  { destruct Hinv as (H1 & H2 & H3 & H4 & H5).
    split; [done|]. split; [done|]. split; [done|]. split; [|done].
    intros pods' [= <-]. done. }
  assert (Hk1 : Cron.Pods (Cron.cluster st1) = inr pods)
    by (destruct Hinv as [H1 _]; simpl; congruence).
  subst st2.
  destruct (numUpdatedReadyReplicas deployment pods <? Cron.Replicas deployment)
    eqn:Hcmp.
  - split; [done|]. split; [done|]. right. intros pods' Hpods'.
    rewrite Hk1 in Hpods'. injection Hpods' as <-. left. lia.
  - destruct (conditions_fold k deployments deployment pods
                (Cron.Conditions deployment) Hin Hpods ltac:(lia)
                ltac:(done) st1 Hinv1) as (Hinv2 & _ & Hmono & Hend).
    split; [done|]. split; [exact Hmono|].
    destruct Hend as [Hhas|Hunstable]; [by left|].
    right. intros pods' _. by right.
Qed.

Lemma deploymentStep_invariant k deployments deployment st :
  deployment ∈ deployments →
  invariant k deployments st →
  invariant k deployments (deploymentStep st deployment)
  ∧ Cron.HPAs (Cron.cluster st)
    ⊆ Cron.HPAs (Cron.cluster (deploymentStep st deployment))
  ∧ settled (Cron.cluster (deploymentStep st deployment)) deployment.
Proof.
  intros Hin Hinv. unfold Cron.deploymentStep, Cron.HPAExists.
  fold (apiName deployment).
  destruct (bool_decide (apiName deployment ∈ Cron.HPAs (Cron.cluster st))) eqn:Hhas.
  { apply bool_decide_eq_true in Hhas. split; [done|]. split; [done|]. by left. }
  pose proof Hinv as (H1 & H2 & H3 & H4 & H5).
  destruct (Cron.allPods st) as [pods|] eqn:Hcache.
  { by apply deploymentStep_listed; [| |apply H4]. }
  unfold Cron.ListPodsWithLabels.
  destruct (Cron.Pods (Cron.cluster st)) as [err|pods] eqn:Hlist.
  - split; [|split; [done|]].
    + split; [simpl; congruence|]. split; [done|]. split; [done|].
      split; [|done]. done.
    + right. simpl. intros pods. by rewrite Hlist.
  - apply deploymentStep_listed; [done|done|congruence].
Qed.

Lemma tick_fold k all deployments :
  (∀ deployment, deployment ∈ deployments → deployment ∈ all) →
  ∀ st,
    invariant k all st →
    invariant k all (fold_left deploymentStep deployments st)
    ∧ Cron.HPAs (Cron.cluster st)
      ⊆ Cron.HPAs (Cron.cluster (fold_left deploymentStep deployments st))
    ∧ Forall (settled (Cron.cluster (fold_left deploymentStep deployments st)))
             deployments.
Proof.
  induction deployments as [|deployment rest IH]; intros Hsub st Hinv; simpl.
  { split; [done|]. split; [done|]. constructor. }
  destruct (deploymentStep_invariant k all deployment st)
    as (Hinv1 & Hmono1 & Hsettled); [apply Hsub; by left|done|].
  destruct (IH (λ d Hd, Hsub d (list_elem_of_further _ _ _ Hd)) _ Hinv1)
    as (Hinv2 & Hmono2 & Hrest).
  split; [done|]. split; [by etrans|].
  constructor; [|done].
  eapply settled_mono; [|exact Hmono2|exact Hsettled].
  destruct Hinv1 as [-> _]. by destruct Hinv2 as [-> _].
Qed.

(** Over deployments that are all settled, the loop of updateHPAs neither
    creates an autoscaler nor changes the cluster. *)
Lemma tick_settled deployments :
  ∀ st,
    Forall (settled (Cron.cluster st)) deployments →
    (∀ pods, Cron.allPods st = Some pods →
             Cron.Pods (Cron.cluster st) = inr pods) →
    Cron.cluster (fold_left deploymentStep deployments st) = Cron.cluster st
    ∧ Cron.created (fold_left deploymentStep deployments st) = Cron.created st.
Proof.
  induction deployments as [|deployment rest IH]; intros st Hsettled Hcache;
    simpl; [done|].
  apply Forall_cons in Hsettled as [Hd Hrest].
  assert (Hstep :
    Cron.cluster (deploymentStep st deployment) = Cron.cluster st
    ∧ Cron.created (deploymentStep st deployment) = Cron.created st
    ∧ (∀ pods, Cron.allPods (deploymentStep st deployment) = Some pods →
               Cron.Pods (Cron.cluster st) = inr pods)).
  { unfold Cron.deploymentStep, Cron.HPAExists. fold (apiName deployment).
    destruct (bool_decide (apiName deployment ∈ Cron.HPAs (Cron.cluster st)))
      eqn:Hhas; [done|].
    apply bool_decide_eq_false in Hhas.
    destruct Hd as [Hd|Hd]; [done|].
    assert (Hlisted : ∀ pods,
      Cron.Pods (Cron.cluster st) = inr pods →
      let st1 := {| Cron.cluster := Cron.cluster st; Cron.allPods := Some pods;
                    Cron.errs := Cron.errs st; Cron.created := Cron.created st |} in
      let st2 :=
        if numUpdatedReadyReplicas deployment pods <? Cron.Replicas deployment
        then st1
        else fold_left (conditionStep deployment) (Cron.Conditions deployment) st1 in
      Cron.cluster st2 = Cron.cluster st
      ∧ Cron.created st2 = Cron.created st
      ∧ (∀ pods', Cron.allPods st2 = Some pods' →
                  Cron.Pods (Cron.cluster st) = inr pods')).
    { intros pods Hpods st1 st2. subst st2.
      destruct (Hd pods Hpods) as [Hfew|Hunstable].
      - apply Z.ltb_lt in Hfew. rewrite Hfew. simpl.
        split; [done|]. split; [done|]. by intros pods' [= <-].
      - rewrite conditions_fold_unstable by done.
        destruct (_ <? _); simpl;
          (split; [done|]; split; [done|]; by intros pods' [= <-]). }
    destruct (Cron.allPods st) as [pods|] eqn:Hcached.
    { by apply Hlisted, Hcache. }
    unfold Cron.ListPodsWithLabels.
    destruct (Cron.Pods (Cron.cluster st)) as [err|pods] eqn:Hlist; [done|].
    by apply Hlisted. }
  destruct Hstep as (Hk & Hc & Hcache1).
  destruct (IH (deploymentStep st deployment)) as [Hk2 Hc2].
  - by rewrite Hk.
  - intros pods. rewrite Hk. apply Hcache1.
  - split; congruence.
Qed.

End TickProofs.

Lemma tick_invariant IsPodReady IsPodSpecLatest now k deployments :
  tickInvariant IsPodReady IsPodSpecLatest now k deployments
    (Cron.tick IsPodReady IsPodSpecLatest now k deployments)
  ∧ Forall (settled IsPodReady IsPodSpecLatest now
              (Cron.cluster (Cron.tick IsPodReady IsPodSpecLatest now k deployments)))
           deployments.
Proof.
  unfold Cron.tick.
  destruct (tick_fold IsPodReady IsPodSpecLatest now k deployments deployments
              ltac:(done)
              {| Cron.cluster := k; Cron.allPods := None; Cron.errs := [];
                 Cron.created := [] |}) as (Hinv & _ & Hsettled); [|done].
  split; [done|]. split; [simpl; by rewrite (left_id_L ∅ (∪))|].
  split; [constructor|]. split; [done|].
  simpl. intros name Hname. by apply elem_of_nil in Hname.
Qed.



(** Scenario 7: the tick creates the one autoscaler, and a tick five
    seconds later on the cluster it left creates none. *)
Lemma updateHPAs_scenario7 :
  Cron.created (Cron.tick Scenario.allReady Scenario.allLatest
                  (1040 * Cron.Second) Scenario.twoPods [Scenario.rolledOut])
  = ["api"]
  ∧ Cron.created
      (Cron.tick Scenario.allReady Scenario.allLatest (1045 * Cron.Second)
         (Cron.updateHPAs Scenario.allReady Scenario.allLatest
            (1040 * Cron.Second) Scenario.twoPods [Scenario.rolledOut]).1
         [Scenario.rolledOut])
    = [].
Proof. split; vm_compute; reflexivity. Qed.

(** ** Duplicate names *)

Lemma named_cons name api apis :
  named name (api :: apis)
  = if String.eqb (Name api) name then api :: named name apis else named name apis.
Proof. reflexivity. Qed.

Lemma named_absent name apis :
  name ∉ Name <$> apis ↔ named name apis = [].
Proof.
  induction apis as [|api apis IH]; [by split; [|intros _; apply not_elem_of_nil]|].
  rewrite named_cons, fmap_cons, not_elem_of_cons, IH.
  destruct (String.eqb (Name api) name) eqn:Heq.
  - apply String.eqb_eq in Heq. split; [intros [Hne _]; congruence|done].
  - apply String.eqb_neq in Heq. split; [by intros [_ ?]|]. intros ?. split; congruence.
Qed.

Lemma named_NoDup apis :
  NoDup (Name <$> apis) ↔ ∀ name, (length (named name apis) ≤ 1)%nat.
Proof.
  induction apis as [|api apis IH].
  { split; [intros _ name; simpl; lia|intros _; constructor]. }
  rewrite fmap_cons, NoDup_cons, IH, named_absent. split.
  - intros [Hfresh Hrest] name. rewrite named_cons.
    destruct (String.eqb (Name api) name) eqn:Heq; [|apply Hrest].
    apply String.eqb_eq in Heq. subst name. rewrite Hfresh. simpl. lia.
  - intros Hall. split.
    + specialize (Hall (Name api)). rewrite named_cons, String.eqb_refl in Hall.
      simpl in Hall. destruct (named (Name api) apis); [done|simpl in Hall; lia].
    + intros name. specialize (Hall name). rewrite named_cons in Hall.
      destruct (String.eqb (Name api) name); simpl in Hall; lia.
Qed.

(** The map that the first loop of findDuplicateNames builds from a slice
    without nil pointers: under every name, the APIs that bear it, in the
    order of the slice. *)
Lemma collectNames_groups apis :
  ∀ names,
    ∃ final,
      collectNames (Some <$> apis) names = Returns final
      ∧ (∀ name, default [] (final !! name)
                 = (default [] (names !! name) ++ named name apis)%list)
      ∧ (∀ name, name ∈ dom final ↔ name ∈ dom names ∨ name ∈ Name <$> apis).
Proof.
  induction apis as [|api apis IH]; intros names;
    [|rewrite fmap_cons; cbn [collectNames]].
  { exists names. split; [done|]. split.
    - intros name. simpl. by rewrite app_nil_r.
    - intros name. rewrite elem_of_nil. tauto. }
  destruct (IH (<[Name api := (default [] (names !! Name api) ++ [api])%list]> names))
    as (final & -> & Hgroups & Hdom).
  exists final. split; [done|]. split.
  - intros name. rewrite Hgroups, named_cons, lookup_insert.
    case_decide as Heq.
    + subst name. rewrite String.eqb_refl. simpl. by rewrite <- app_assoc.
    + apply String.eqb_neq in Heq. by rewrite Heq.
  - intros name. rewrite Hdom, dom_insert, elem_of_union, elem_of_singleton,
      fmap_cons, elem_of_cons. split; [intros [[->|?]|?]|intros [?|[->|?]]]; auto.
Qed.

Lemma firstGroup_cases (names : gmap string (list API)) keys :
  (firstGroup names keys = []
   ∧ ∀ name, name ∈ keys → (length (default [] (names !! name)) ≤ 1)%nat)
  ∨ (∃ name, name ∈ keys
             ∧ firstGroup names keys = default [] (names !! name)
             ∧ (1 < length (default [] (names !! name)))%nat).
Proof.
  induction keys as [|key keys IH]; simpl.
  { left. split; [done|]. intros name Hname. by apply elem_of_nil in Hname. }
  destruct (1 <? length (default [] (names !! key)))%nat eqn:Hlen.
  - apply Nat.ltb_lt in Hlen. right. exists key. split; [by left|done].
  - apply Nat.ltb_ge in Hlen. destruct IH as [[Hnil Hshort]|(name & Hin & Heq & Hlong)].
    + left. split; [done|]. intros name [->|Hname]%elem_of_cons; auto.
    + right. exists name. split; [by right|done].
Qed.

(** findDuplicateNames on a slice without nil pointers, whatever the order in
    which the runtime hands out the keys of the map: it returns nothing
    exactly when the names are pairwise distinct, and otherwise all the APIs
    that bear one of the duplicated names, in the order of the slice. *)
Theorem findDuplicateNames_group rangeOrder apis :
  (∀ keys, rangeOrder keys ≡ₚ keys) →
  ∃ dups,
    findDuplicateNames rangeOrder (Some <$> apis) = Returns dups
    ∧ (dups = [] ↔ NoDup (Name <$> apis))
    ∧ (dups ≠ [] → ∃ name, dups = named name apis ∧ (2 ≤ length dups)%nat).
Proof.
  intros Hperm. unfold findDuplicateNames.
  destruct (collectNames_groups apis ∅) as (final & -> & Hgroups & Hdom).
  assert (Hgroup : ∀ name, default [] (final !! name) = named name apis).
  { intros name. by rewrite Hgroups, lookup_empty. }
  eexists. split; [reflexivity|].
  destruct (firstGroup_cases final (rangeOrder (elements (dom final))))
    as [[-> Hshort]|(name & Hin & -> & Hlong)].
  - split; [|done]. split; [|done]. intros _.
    apply named_NoDup. intros name.
    destruct (decide (name ∈ Name <$> apis)) as [Hin|Hout].
    + rewrite <- Hgroup. apply Hshort. rewrite Hperm, elem_of_elements, Hdom. by right.
    + apply named_absent in Hout. rewrite Hout. simpl. lia.
  - rewrite Hgroup in *. split.
    + split; [intros Hnil; rewrite Hnil in Hlong; simpl in Hlong; lia|].
      intros Hnodup. apply named_NoDup with (name := name) in Hnodup. lia.
    + intros _. exists name. split; [done|lia].
Qed.

Lemma findDuplicateNames_group_witness :
  ∃ dups,
    findDuplicateNames Scenario.backwards
      (Some <$> [Scenario.pythonAPI "a" None 0 None;
                 Scenario.pythonAPI "b" None 1 None;
                 Scenario.pythonAPI "a" None 2 None])
    = Returns dups
    ∧ (dups = [] ↔ NoDup (Name <$> [Scenario.pythonAPI "a" None 0 None;
                                    Scenario.pythonAPI "b" None 1 None;
                                    Scenario.pythonAPI "a" None 2 None]))
    ∧ (dups ≠ [] →
       ∃ name, dups = named name [Scenario.pythonAPI "a" None 0 None;
                                  Scenario.pythonAPI "b" None 1 None;
                                  Scenario.pythonAPI "a" None 2 None]
               ∧ (2 ≤ length dups)%nat).
Proof.
  apply (findDuplicateNames_group Scenario.backwards).
  intros keys. unfold Scenario.backwards. symmetry. apply Permutation_rev.
Defined.

(** ** Endpoint collisions against the cluster *)

Lemma endpointLoop_set api apiEndpoint apiName endpoints :
  Endpoint api = Some apiEndpoint →
  endpointLoop api apiName endpoints
  = Returns (if bool_decide (apiEndpoint ∈ endpoints)
                && negb (String.eqb apiName (Name api))
             then Some (Wrap (ErrorDuplicateEndpointOtherDeployment apiName)
                          [Identify api; Str EndpointKey; Str apiEndpoint])
             else None).
Proof.
  intros Hep. induction endpoints as [|endpoint rest IH]; simpl; [done|].
  rewrite Hep, IH. clear IH.
  destruct (String.eqb endpoint apiEndpoint) eqn:Heq.
  - apply String.eqb_eq in Heq. subst endpoint.
    rewrite (bool_decide_eq_true_2 (apiEndpoint ∈ apiEndpoint :: rest)) by by left.
    simpl. destruct (negb _); [done|]. by rewrite andb_false_r.
  - apply String.eqb_neq in Heq. simpl.
    rewrite (bool_decide_ext (apiEndpoint ∈ endpoint :: rest) (apiEndpoint ∈ rest));
      [done|].
    rewrite elem_of_cons. split; [intros [?|?]; [congruence|done]|by right].
Qed.

(** validateEndpointCollisions for an API whose endpoint is set: it returns,
    and returns nil exactly when every virtual service is compatible with
    the API; an error is either the failure to read a virtual service or
    DUPLICATE_ENDPOINT_OTHER_DEPLOYMENT naming the owner of a gateway-bound
    virtual service that serves the endpoint under another API name. *)
Theorem validateEndpointCollisions_cases api apiEndpoint virtualServices :
  Endpoint api = Some apiEndpoint →
  ∃ result,
    validateEndpointCollisions api virtualServices = Returns result
    ∧ (result = None ↔ Forall (compatible (Name api) apiEndpoint) virtualServices)
    ∧ (∀ err, result = Some err →
         (∃ message, err = ErrorIO message)
         ∨ ∃ virtualService gateways endpoints,
             virtualService ∈ virtualServices
             ∧ Gateways virtualService = inr gateways
             ∧ "apis-gateway" ∈ gateways
             ∧ Endpoints virtualService = inr endpoints
             ∧ apiEndpoint ∈ endpoints
             ∧ owner virtualService ≠ Name api
             ∧ err = Wrap (ErrorDuplicateEndpointOtherDeployment (owner virtualService))
                       [Identify api; Str EndpointKey; Str apiEndpoint]).
Proof.
  intros Hep.
  induction virtualServices as [|virtualService rest IH]; simpl.
  { exists None. split; [done|]. split; [|done]. split; [constructor|done]. }
  destruct IH as (result & Hrest & Hnone & Hsome).
  assert (Hskip : ∀ gateways,
    Gateways virtualService = inr gateways →
    compatible (Name api) apiEndpoint virtualService →
    ∃ result,
      validateEndpointCollisions api rest = Returns result
      ∧ (result = None
         ↔ Forall (compatible (Name api) apiEndpoint) (virtualService :: rest))
      ∧ (∀ err, result = Some err →
         (∃ message, err = ErrorIO message)
         ∨ ∃ virtualService0 gateways endpoints,
             virtualService0 ∈ virtualService :: rest
             ∧ Gateways virtualService0 = inr gateways
             ∧ "apis-gateway" ∈ gateways
             ∧ Endpoints virtualService0 = inr endpoints
             ∧ apiEndpoint ∈ endpoints
             ∧ owner virtualService0 ≠ Name api
             ∧ err = Wrap (ErrorDuplicateEndpointOtherDeployment (owner virtualService0))
                       [Identify api; Str EndpointKey; Str apiEndpoint])).
  { intros gateways Hgw Hcompatible. exists result. split; [done|]. split.
    - rewrite Forall_cons, Hnone. tauto.
    - intros err Herr. destruct (Hsome err Herr) as [?|(v & g & eps & Hin & ?)];
        [by left|].
      right. exists v, g, eps. split; [by right|done]. }
  destruct (Gateways virtualService) as [message|gateways] eqn:Hgw.
  { eexists. split; [reflexivity|]. split.
    - split; [done|]. intros [(g & Hg & _) _]%Forall_cons. congruence.
    - intros err [= <-]. left. by eexists. }
  destruct (bool_decide ("apis-gateway" ∈ gateways)) eqn:Hbound; simpl.
  2:{ apply bool_decide_eq_false in Hbound. apply (Hskip gateways eq_refl).
      exists gateways. split; [done|]. by intros ?. }
  apply bool_decide_eq_true in Hbound.
  destruct (Endpoints virtualService) as [message|endpoints] eqn:Heps.
  { eexists. split; [reflexivity|]. split.
    - split; [done|]. intros [(g & Hg & Hserved) _]%Forall_cons.
      assert (g = gateways) as -> by congruence.
      destruct (Hserved Hbound) as (eps & Heps' & _). congruence.
    - intros err [= <-]. left. by eexists. }
  rewrite (endpointLoop_set _ apiEndpoint) by done. fold (owner virtualService).
  destruct (bool_decide (apiEndpoint ∈ elements endpoints)) eqn:Hserves; simpl.
  2:{ apply bool_decide_eq_false in Hserves. rewrite elem_of_elements in Hserves.
      apply (Hskip gateways eq_refl).
      exists gateways. split; [done|]. intros _. by exists endpoints. }
  apply bool_decide_eq_true in Hserves. rewrite elem_of_elements in Hserves.
  destruct (String.eqb (owner virtualService) (Name api)) eqn:Hown; simpl.
  { apply String.eqb_eq in Hown. apply (Hskip gateways eq_refl).
    exists gateways. split; [done|]. intros _. by exists endpoints. }
  apply String.eqb_neq in Hown.
  eexists. split; [reflexivity|]. split.
  - split; [done|]. intros [(g & Hg & Hserved) _]%Forall_cons.
    assert (g = gateways) as -> by congruence.
    destruct (Hserved Hbound) as (eps & Heps' & Howner).
    assert (eps = endpoints) as -> by congruence. tauto.
  - intros err [= <-]. right. exists virtualService, gateways, endpoints.
    split; [by left|done].
Qed.

Lemma validateEndpointCollisions_cases_witness :
  ∃ err,
    validateEndpointCollisions (Scenario.pythonAPI "a" (Some "/x") 0 None)
      [Examples.taken]
    = Returns (Some err)
    ∧ ¬ Forall (compatible "a" "/x") [Examples.taken].
Proof.
  destruct (validateEndpointCollisions_cases
              (Scenario.pythonAPI "a" (Some "/x") 0 None) "/x" [Examples.taken]
              eq_refl) as (result & Hresult & Hnone & _).
  vm_compute in Hresult. injection Hresult as <-.
  eexists. split; [reflexivity|]. intros Hcompatible.
  destruct Hnone as [_ Hnone]. specialize (Hnone Hcompatible). discriminate.
Defined.

(** ** A pass never stops on anything but a nil pointer *)

Lemma withEndpoint_Endpoint api :
  Endpoint (withEndpoint api) = Some (default ("/" +:+ Name api) (Endpoint api)).
Proof.
  unfold withEndpoint. destruct (Endpoint api) eqn:Hep; simpl; [by rewrite Hep|done].
Qed.

Lemma validateEndpointCollisions_returns api apiEndpoint virtualServices :
  Endpoint api = Some apiEndpoint →
  ∃ result, validateEndpointCollisions api virtualServices = Returns result.
Proof.
  intros Hep. induction virtualServices as [|virtualService rest IH]; simpl;
    [by eexists|].
  destruct (Gateways virtualService); [by eexists|].
  destruct (negb _); [done|].
  destruct (Endpoints virtualService); [by eexists|].
  rewrite (endpointLoop_set _ apiEndpoint) by done.
  destruct (_ && _); [by eexists|done].
Qed.

Lemma validateEndpointCollisions_compatible api apiEndpoint virtualServices :
  Endpoint api = Some apiEndpoint →
  validateEndpointCollisions api virtualServices = Returns None →
  Forall (compatible (Name api) apiEndpoint) virtualServices.
Proof.
  intros Hep. induction virtualServices as [|virtualService rest IH]; simpl;
    [constructor|].
  destruct (Gateways virtualService) as [|gateways] eqn:Hgw; [done|].
  destruct (bool_decide ("apis-gateway" ∈ gateways)) eqn:Hbound; simpl.
  2:{ apply bool_decide_eq_false in Hbound. intros Hrest.
      constructor; [|by apply IH]. exists gateways. split; [done|]. by intros ?. }
  destruct (Endpoints virtualService) as [|endpoints] eqn:Heps; [done|].
  rewrite (endpointLoop_set _ apiEndpoint) by done. fold (owner virtualService).
  destruct (bool_decide (apiEndpoint ∈ elements endpoints)) eqn:Hserves; simpl.
  2:{ apply bool_decide_eq_false in Hserves. rewrite elem_of_elements in Hserves.
      intros Hrest. constructor; [|by apply IH].
      exists gateways. split; [done|]. intros _. by exists endpoints. }
  destruct (String.eqb (owner virtualService) (Name api)) eqn:Hown; simpl; [|done].
  apply String.eqb_eq in Hown. intros Hrest. constructor; [|by apply IH].
  exists gateways. split; [done|]. intros _. by exists endpoints.
Qed.

Lemma validateAPI_returns w api projectFileMap virtualServices maxMem :
  ∃ api' maxMem' err,
    validateAPI w (Some api) projectFileMap virtualServices maxMem
    = Returns (api', maxMem', err).
Proof.
  unfold validateAPI. fold (withEndpoint api).
  destruct (validatePredictor w _ projectFileMap) as [predictor [err|]];
    [by eexists _, _, _|].
  destruct (validateCompute w _ maxMem) as [maxMem' [err|]]; [by eexists _, _, _|].
  destruct (validateEndpointCollisions_returns
              (setPredictor (withEndpoint api) predictor)
              (default ("/" +:+ Name api) (Endpoint api)) virtualServices)
    as (result & ->); [apply withEndpoint_Endpoint|].
  by eexists _, _, _.
Qed.

Lemma validateAll_returns w projectFileMap virtualServices apis :
  ∀ maxMem,
    ∃ apis' maxMem' err,
      validateAll w projectFileMap virtualServices maxMem (Some <$> apis)
      = Returns (apis', maxMem', err).
Proof.
  induction apis as [|api apis IH]; intros maxMem;
    [by eexists _, _, _|rewrite fmap_cons; cbn [validateAll]].
  destruct (validateAPI_returns w api projectFileMap virtualServices maxMem)
    as (api' & maxMem' & err & ->).
  destruct err as [err|]; [by eexists _, _, _|].
  destruct (IH maxMem') as (apis' & maxMem'' & err & ->). by eexists _, _, _.
Qed.

Lemma collectNames_nil_pointer apis :
  None ∈ apis → ∀ names, collectNames apis names = Panics nil_dereference.
Proof.
  induction apis as [|[api|] apis IH]; intros Hin names.
  - by apply elem_of_nil in Hin.
  - apply elem_of_cons in Hin as [?|Hin]; [done|]. simpl. by apply IH.
  - done.
Qed.

Lemma nil_pointer_or_not (apis : list (option API)) :
  None ∈ apis ∨ ∃ pointees, apis = Some <$> pointees.
Proof.
  induction apis as [|[api|] apis IH].
  - right. by exists [].
  - destruct IH as [Hin|(pointees & ->)]; [left; by right|].
    right. by exists (api :: pointees).
  - left. by left.
Qed.



(** ** Compute against the capacity of a node *)

Lemma validateAvailableCompute_cases w compute maxMem :
  validateAvailableCompute w compute maxMem
  = (maxMem - reservedMem w,
     if availableCPU w <? Quantity_ (CPU compute) then
       Some (ErrorNoAvailableNodeComputeLimit "CPU" (Quantity_ (CPU compute))
               (availableCPU w))
     else
       match Mem compute with
       | Some mem =>
           if maxMem - reservedMem w <? Quantity_ mem then
             Some (ErrorNoAvailableNodeComputeLimit "Memory" (Quantity_ mem)
                     (maxMem - reservedMem w))
           else if InstanceMetadata_GPU w <? GPU compute then
             Some (ErrorNoAvailableNodeComputeLimit "GPU" (GPU compute)
                     (InstanceMetadata_GPU w))
           else None
       | None =>
           if InstanceMetadata_GPU w <? GPU compute then
             Some (ErrorNoAvailableNodeComputeLimit "GPU" (GPU compute)
                     (InstanceMetadata_GPU w))
           else None
       end).
Proof.
  unfold validateAvailableCompute, availableCPU, reservedMem.
  destruct (0 <? InstanceMetadata_GPU w);
    rewrite ?Z.add_0_r, ?Z.sub_0_r, ?Z.sub_add_distr;
    (destruct (_ <? Quantity_ (CPU compute)); [done|]);
    (destruct (Mem compute) as [mem|]; simpl;
       [destruct (_ <? Quantity_ mem); [done|]|]);
    by destruct (_ <? GPU compute).
Qed.

(** validateCompute returns nil exactly when the replica counts are ordered
    and CPU, memory (when asked for) and GPU fit what a node has left after
    the reservations; the quantity behind maxMem is then lower by the memory
    reservations. *)
Theorem validateCompute_accepts_iff w compute maxMem maxMem' :
  validateCompute w compute maxMem = (maxMem', None)
  ↔ MinReplicas compute ≤ InitReplicas compute
    ∧ InitReplicas compute ≤ MaxReplicas compute
    ∧ Quantity_ (CPU compute) ≤ availableCPU w
    ∧ (∀ mem, Mem compute = Some mem → Quantity_ mem ≤ maxMem - reservedMem w)
    ∧ GPU compute ≤ InstanceMetadata_GPU w
    ∧ maxMem' = maxMem - reservedMem w.
Proof.
  unfold validateCompute. rewrite validateAvailableCompute_cases.
  destruct (Z.ltb_spec (MaxReplicas compute) (MinReplicas compute));
    [split; [done|lia]|].
  destruct (Z.ltb_spec (MaxReplicas compute) (InitReplicas compute));
    [split; [done|lia]|].
  destruct (Z.ltb_spec (InitReplicas compute) (MinReplicas compute));
    [split; [done|lia]|].
  destruct (Z.ltb_spec (availableCPU w) (Quantity_ (CPU compute)));
    [split; [done|lia]|].
  destruct (Mem compute) as [mem|].
  - destruct (Z.ltb_spec (maxMem - reservedMem w) (Quantity_ mem)).
    { split; [done|]. intros (_ & _ & _ & Hmem & _). specialize (Hmem mem eq_refl). lia. }
    destruct (Z.ltb_spec (InstanceMetadata_GPU w) (GPU compute));
      [split; [done|lia]|].
    split.
    + intros [= <-]. repeat split; try lia. by intros ? [= <-].
    + intros (_ & _ & _ & _ & _ & ->). done.
  - destruct (Z.ltb_spec (InstanceMetadata_GPU w) (GPU compute));
      [split; [done|lia]|].
    split.
    + intros [= <-]. repeat split; try lia. done.
    + intros (_ & _ & _ & _ & _ & ->). done.
Qed.

Lemma validateCompute_accepts_iff_witness :
  validateCompute Scenario.empty
    (Compute_ (Scenario.pythonAPI "a" None 0 (Some Scenario.mem3200)))
    (4096 * Scenario.Mi)
  = (3596 * Scenario.Mi, None).
Proof.
  apply (proj2 (validateCompute_accepts_iff Scenario.empty _ _ _)).
  split; [vm_compute; discriminate|].
  split; [vm_compute; discriminate|].
  split; [vm_compute; discriminate|].
  split; [intros mem [= <-]; vm_compute; discriminate|].
  split; [vm_compute; discriminate|].
  vm_compute. reflexivity.
Defined.

(** How validateCompute refuses. A replica violation is found before the
    capacity is looked at and leaves the quantity behind maxMem alone; a
    capacity error names the first of CPU, Memory and GPU that does not
    fit, with what was asked and what is left, and by then the memory
    reservations have been taken off maxMem. *)
Theorem validateCompute_rejects_how w compute maxMem maxMem' err :
  validateCompute w compute maxMem = (maxMem', Some err) →
  (kind err = REPLICA_BOUND_VIOLATION
   ∧ ¬ (MinReplicas compute ≤ InitReplicas compute
        ∧ InitReplicas compute ≤ MaxReplicas compute)
   ∧ maxMem' = maxMem)
  ∨ (MinReplicas compute ≤ InitReplicas compute
     ∧ InitReplicas compute ≤ MaxReplicas compute
     ∧ maxMem' = maxMem - reservedMem w
     ∧ ((availableCPU w < Quantity_ (CPU compute)
         ∧ err = ErrorNoAvailableNodeComputeLimit "CPU" (Quantity_ (CPU compute))
                   (availableCPU w))
        ∨ (Quantity_ (CPU compute) ≤ availableCPU w
           ∧ ∃ mem, Mem compute = Some mem
                    ∧ maxMem - reservedMem w < Quantity_ mem
                    ∧ err = ErrorNoAvailableNodeComputeLimit "Memory" (Quantity_ mem)
                              (maxMem - reservedMem w))
        ∨ (Quantity_ (CPU compute) ≤ availableCPU w
           ∧ (∀ mem, Mem compute = Some mem →
                     Quantity_ mem ≤ maxMem - reservedMem w)
           ∧ InstanceMetadata_GPU w < GPU compute
           ∧ err = ErrorNoAvailableNodeComputeLimit "GPU" (GPU compute)
                     (InstanceMetadata_GPU w)))).
Proof.
  unfold validateCompute. rewrite validateAvailableCompute_cases.
  destruct (Z.ltb_spec (MaxReplicas compute) (MinReplicas compute)).
  { intros [= <- <-]. left. split; [done|]. split; [lia|done]. }
  destruct (Z.ltb_spec (MaxReplicas compute) (InitReplicas compute)).
  { intros [= <- <-]. left. split; [done|]. split; [lia|done]. }
  destruct (Z.ltb_spec (InitReplicas compute) (MinReplicas compute)).
  { intros [= <- <-]. left. split; [done|]. split; [lia|done]. }
  intros Hcap. right. split; [lia|]. split; [lia|].
  destruct (Z.ltb_spec (availableCPU w) (Quantity_ (CPU compute))).
  { injection Hcap as <- <-. split; [done|]. by left. }
  destruct (Mem compute) as [mem|].
  - destruct (Z.ltb_spec (maxMem - reservedMem w) (Quantity_ mem)).
    { injection Hcap as <- <-. split; [done|]. right. left.
      split; [done|]. by exists mem. }
    destruct (Z.ltb_spec (InstanceMetadata_GPU w) (GPU compute)); [|done].
    injection Hcap as <- <-. split; [done|]. right. right.
    split; [done|]. split; [by intros ? [= <-]|done].
  - destruct (Z.ltb_spec (InstanceMetadata_GPU w) (GPU compute)); [|done].
    injection Hcap as <- <-. split; [done|]. right. right.
    split; [done|]. split; [done|done].
Qed.

Lemma validateCompute_rejects_how_witness :
  ∃ maxMem' err,
    validateCompute Scenario.empty
      (Compute_ (Scenario.pythonAPI "a" None 0 (Some Scenario.mem3200)))
      (3596 * Scenario.Mi)
    = (maxMem', Some err)
    ∧ maxMem' = 3596 * Scenario.Mi - reservedMem Scenario.empty.
Proof.
  eexists _, _. split; [vm_compute; reflexivity|].
  destruct (validateCompute_rejects_how Scenario.empty
              (Compute_ (Scenario.pythonAPI "a" None 0 (Some Scenario.mem3200)))
              (3596 * Scenario.Mi) _ _ eq_refl)
    as [(Hkind & _)|(_ & _ & Hmem & _)]; [discriminate Hkind|exact Hmem].
Defined.

(** ** Predictors against the project files and object storage *)

Lemma validatePythonPath_found pythonPath (projectFileMap : ProjectFileMap) :
  validatePythonPath pythonPath projectFileMap = None →
  ∃ fileKey, is_Some (projectFileMap !! fileKey)
             ∧ HasPrefix fileKey pythonPath = true.
Proof.
  unfold validatePythonPath.
  destruct (existsb _ _) eqn:Hex; [|done]. intros _.
  apply existsb_exists in Hex as (fileKey & Hin & Hprefix).
  apply list_elem_of_In, list_elem_of_fmap in Hin as ([key bytes] & -> & Hin).
  apply elem_of_map_to_list in Hin. exists key. split; [by exists bytes|done].
Qed.

(** validatePythonPath returns nil exactly when some project file lies under
    pythonPath; otherwise the error is IMPL_DOES_NOT_EXIST for pythonPath.
    With no project files at all it always fails; the empty pythonPath
    passes as soon as there is one project file. *)
Theorem validatePythonPath_iff pythonPath (projectFileMap : ProjectFileMap) :
  (validatePythonPath pythonPath projectFileMap = None
   ↔ ∃ fileKey, is_Some (projectFileMap !! fileKey)
                ∧ HasPrefix fileKey pythonPath = true)
  ∧ (validatePythonPath pythonPath projectFileMap = None
     ∨ validatePythonPath pythonPath projectFileMap
       = Some (ErrorImplDoesNotExist pythonPath))
  ∧ validatePythonPath pythonPath ∅ = Some (ErrorImplDoesNotExist pythonPath)
  ∧ (projectFileMap ≠ ∅ → validatePythonPath "" projectFileMap = None).
Proof.
  split; [|split; [|split]].
  - split; [apply validatePythonPath_found|].
    intros (fileKey & Hfile & Hprefix). by eapply validatePythonPath_ok.
  - unfold validatePythonPath. destruct (existsb _ _); [by left|by right].
  - unfold validatePythonPath. by rewrite map_to_list_empty.
  - intros Hne. destruct (map_choose projectFileMap Hne) as (fileKey & bytes & Hfile).
    apply (validatePythonPath_ok _ _ fileKey); [by exists bytes|].
    unfold HasPrefix. by destruct fileKey.
Qed.

Lemma validatePythonPath_iff_witness :
  validatePythonPath "" Scenario.projectFiles = None.
Proof.
  apply (proj2 (proj2 (proj2 (validatePythonPath_iff "" Scenario.projectFiles)))).
  intros Hempty. apply (f_equal (λ m : ProjectFileMap, m !! "p.py")) in Hempty.
  vm_compute in Hempty. discriminate.
Defined.

Lemma validateTensorFlowPredictor_frame w predictor predictor' err :
  validateTensorFlowPredictor w predictor = (predictor', err) →
  predictor' = predictor ∨ ∃ dir, predictor' = setModel predictor (Some dir).
Proof.
  unfold validateTensorFlowPredictor. intros H.
  repeat case_match; simplify_eq; eauto.
Qed.

(** What validatePredictor leaves behind the pointer, whatever it answers:
    the predictor as it was, or, for a TensorFlow predictor only, the
    predictor with another model path. *)
Lemma validatePredictor_frame w predictor projectFileMap predictor' err :
  validatePredictor w predictor projectFileMap = (predictor', err) →
  predictor' = predictor
  ∨ (Type_ predictor = TensorFlowPredictorType
     ∧ ∃ dir, predictor' = setModel predictor (Some dir)).
Proof.
  unfold validatePredictor.
  destruct (Type_ predictor) eqn:Htype.
  1,2,4: intros H; left; repeat case_match; simplify_eq; done.
  destruct (validateTensorFlowPredictor w predictor) as [p e] eqn:Htf.
  apply validateTensorFlowPredictor_frame in Htf.
  assert (Hpath : Path p = Path predictor ∧ PythonPath p = PythonPath predictor)
    by (destruct Htf as [->|[dir ->]]; done).
  intros H.
  assert (predictor' = p) as -> by (repeat case_match; simplify_eq; done).
  destruct Htf as [->|?]; [by left|by right].
Qed.

(** A predictor that validatePredictor accepts, of whatever type: its path is
    a project file, its pythonPath, when set, is the prefix of a project
    file, and it is left as it was except that a TensorFlow predictor may
    have its model path rewritten. *)
Theorem validatePredictor_accepts_resolved w predictor
    (projectFileMap : ProjectFileMap) predictor' :
  validatePredictor w predictor projectFileMap = (predictor', None) →
  is_Some (projectFileMap !! Path predictor')
  ∧ (∀ pythonPath, PythonPath predictor' = Some pythonPath →
       ∃ fileKey, is_Some (projectFileMap !! fileKey)
                  ∧ HasPrefix fileKey pythonPath = true)
  ∧ Type_ predictor' = Type_ predictor
  ∧ Path predictor' = Path predictor
  ∧ PythonPath predictor' = PythonPath predictor
  ∧ SignatureKey predictor' = SignatureKey predictor
  ∧ Config predictor' = Config predictor
  ∧ Env predictor' = Env predictor
  ∧ (Type_ predictor ≠ TensorFlowPredictorType → predictor' = predictor).
Proof.
  intros Hok.
  assert (Hframe := validatePredictor_frame _ _ _ _ _ Hok).
  assert (Hresolved :
    is_Some (projectFileMap !! Path predictor')
    ∧ (∀ pythonPath, PythonPath predictor' = Some pythonPath →
         validatePythonPath pythonPath projectFileMap = None)).
  { unfold validatePredictor in Hok.
    destruct (match Type_ predictor with
              | UnknownPredictorType => _ | _ => _ end) as [p [e|]];
      [by injection Hok|].
    destruct (projectFileMap !! Path p) as [bytes|] eqn:Hpath; [|done].
    destruct (PythonPath p) as [pythonPath|] eqn:Hpp.
    - destruct (validatePythonPath pythonPath projectFileMap) eqn:Hvalid; [done|].
      injection Hok as <-. split; [by exists bytes|]. intros ? Heq.
      rewrite Hpp in Heq. by injection Heq as <-.
    - injection Hok as <-. split; [by exists bytes|]. intros ? Heq. congruence. }
  destruct Hresolved as [Hpath Hpython].
  split; [done|]. split.
  { intros pythonPath Hpp. by apply validatePythonPath_found, Hpython. }
  destruct Hframe as [->|(Htf & dir & ->)]; [done|].
  repeat split; done.
Qed.

Lemma validatePredictor_accepts_resolved_witness :
  is_Some (Scenario.projectFiles !! Path Scenario.untypedPredictor).
Proof.
  apply (validatePredictor_accepts_resolved Scenario.empty Scenario.untypedPredictor
           Scenario.projectFiles Scenario.untypedPredictor).
  vm_compute. reflexivity.
Defined.

(** validatePredictor on a Python predictor returns nil exactly when it has
    neither signatureKey nor model, its path is a project file and its
    pythonPath, when set, is the prefix of a project file. *)
Theorem validatePredictor_python_iff w predictor (projectFileMap : ProjectFileMap)
    predictor' :
  Type_ predictor = PythonPredictorType →
  validatePredictor w predictor projectFileMap = (predictor', None)
  ↔ predictor' = predictor
    ∧ SignatureKey predictor = None
    ∧ Model predictor = None
    ∧ is_Some (projectFileMap !! Path predictor)
    ∧ (∀ pythonPath, PythonPath predictor = Some pythonPath →
         ∃ fileKey, is_Some (projectFileMap !! fileKey)
                    ∧ HasPrefix fileKey pythonPath = true).
Proof.
  intros Htype. unfold validatePredictor, validatePythonPredictor. rewrite Htype.
  destruct (SignatureKey predictor) as [key|]; [split; [done|by intros (_ & ? & _)]|].
  destruct (Model predictor) as [model|]; [split; [done|by intros (_ & _ & ? & _)]|].
  destruct (projectFileMap !! Path predictor) as [bytes|] eqn:Hpath.
  2:{ split; [done|]. intros (_ & _ & _ & [? ?] & _). done. }
  destruct (PythonPath predictor) as [pythonPath|] eqn:Hpp.
  - destruct (validatePythonPath pythonPath projectFileMap) as [err|] eqn:Hvalid.
    + split; [done|]. intros (_ & _ & _ & _ & Hpython).
      destruct (Hpython pythonPath eq_refl) as (fileKey & Hfile & Hprefix).
      rewrite (validatePythonPath_ok _ _ _ Hfile Hprefix) in Hvalid. done.
    + split.
      * intros [= <-]. repeat split; [by exists bytes|].
        intros ? [= <-]. by apply validatePythonPath_found.
      * by intros (-> & _).
  - split.
    + intros [= <-]. repeat split; [by exists bytes|done].
    + by intros (-> & _).
Qed.

Lemma validatePredictor_python_iff_witness :
  validatePredictor Scenario.empty
    (Predictor_ (Scenario.pythonAPI "a" None 0 None)) Scenario.projectFiles
  = (Predictor_ (Scenario.pythonAPI "a" None 0 None), None).
Proof.
  apply (validatePredictor_python_iff Scenario.empty
           (Predictor_ (Scenario.pythonAPI "a" None 0 None))
           Scenario.projectFiles _ eq_refl).
  split; [done|]. split; [done|]. split; [done|].
  split; [exists []; vm_compute; reflexivity|]. intros ? [=].
Defined.

(** ** The version of a TensorFlow export *)

Lemma append_String c s t : String c s +:+ t = String c (s +:+ t).
Proof. reflexivity. Qed.

Lemma append_empty t : "" +:+ t = t.
Proof. reflexivity. Qed.

Lemma substring_all s : substring 0 (String.length s) s = s.
Proof. induction s as [|c s IH]; simpl; [done|by rewrite IH]. Qed.

Lemma substring_split n : ∀ s,
  (n ≤ String.length s)%nat →
  s = substring 0 n s +:+ substring n (String.length s - n) s.
Proof.
  induction n as [|n IH]; intros s Hn.
  - rewrite Nat.sub_0_r, substring_all. by destruct s.
  - destruct s as [|c s]; simpl in *; [lia|].
    rewrite append_String. f_equal. apply IH. lia.
Qed.

Lemma HasSuffix_app s suffix :
  HasSuffix s suffix = true → ∃ front, s = front +:+ suffix.
Proof.
  unfold HasSuffix. intros [Hlen Heq]%andb_true_iff.
  apply Nat.leb_le in Hlen. apply String.eqb_eq in Heq.
  exists (substring 0 (String.length s - String.length suffix) s).
  pose proof (substring_split (String.length s - String.length suffix) s
                ltac:(lia)) as Hsplit.
  replace (String.length s - (String.length s - String.length suffix))%nat
    with (String.length suffix) in Hsplit by lia.
  by rewrite Heq in Hsplit.
Qed.

Lemma Split_nonempty s sep : Split s sep ≠ [].
Proof. destruct s as [|c s]; simpl; [done|]. destruct (Ascii.eqb c sep); [done|]. by destruct (Split s sep). Qed.

Lemma Split_app_last front suffix sep :
  Split suffix sep = [suffix] →
  Split (front +:+ suffix) sep
  = (removelast (Split front sep) ++ [List.last (Split front sep) "" +:+ suffix])%list.
Proof.
  intros Hfree. induction front as [|c front IH];
    [by rewrite append_empty, Hfree|].
  rewrite append_String. simpl. rewrite IH. pose proof (Split_nonempty front sep) as Hne.
  destruct (Ascii.eqb c sep).
  - destruct (Split front sep) as [|h t]; [done|]. done.
  - destruct (Split front sep) as [|h [|x t]]; [done|done|done].
Qed.

Lemma digits_app_none suffix :
  (∀ acc, digits suffix acc = None) →
  ∀ front acc, digits (front +:+ suffix) acc = None.
Proof.
  intros Hsuffix. induction front as [|c front IH]; intros acc;
    [apply Hsuffix|rewrite append_String; simpl].
  destruct (digit_of c); [apply IH|done].
Qed.

Lemma ParseInt_file_name front : ParseInt (front +:+ "saved_model.pb") = None.
Proof.
  assert (Hdigits : ∀ y acc, digits (y +:+ "saved_model.pb") acc = None)
    by (apply digits_app_none; done).
  assert (Hunsigned : ∀ y,
    match y +:+ "saved_model.pb" with
    | "" => None | _ => digits (y +:+ "saved_model.pb") 0 end = None).
  { intros y. destruct (y +:+ "saved_model.pb") eqn:E; [done|]. rewrite <- E. apply Hdigits. }
  destruct front as [|c front]; [done|].
  unfold ParseInt. rewrite append_String.
  destruct c as [[] [] [] [] [] [] [] []]; cbn -[digits Z.pow]; rewrite ?Hunsigned; try reflexivity.
  all: try (change (String ?c (front +:+ "saved_model.pb")) with ((String c front) +:+ "saved_model.pb"); rewrite Hdigits; reflexivity).
Qed.

(** The last component of a key that ends in "saved_model.pb" is no number:
    the loop of getTFServingExportFromS3Path gives every candidate the
    version 0. *)
Lemma version_of_file_name key :
  HasSuffix key "saved_model.pb" = true →
  ParseInt (List.last (Split key "/") "") = None.
Proof.
  intros (front & ->)%HasSuffix_app.
  rewrite Split_app_last by reflexivity.
  rewrite last_last. apply ParseInt_file_name.
Qed.

Lemma versionStep_zero w bucket awsClient highestPath key :
  versionStep w bucket awsClient (0, highestPath) key
  = (0, if HasSuffix key "saved_model.pb"
           && isValidTensorFlowS3Directory w (directoryOf bucket key) awsClient
        then directoryOf bucket key else highestPath).
Proof.
  unfold versionStep. cbv zeta. fold (directoryOf bucket key).
  destruct (HasSuffix key "saved_model.pb") eqn:Hsuffix; cbn [negb andb]; [|done].
  rewrite (version_of_file_name _ Hsuffix). change (0 <=? 0) with true.
  cbn [andb].
  by destruct (isValidTensorFlowS3Directory w (directoryOf bucket key) awsClient).
Qed.

Lemma last_cons_default {A : Type} (a d : A) l :
  List.last (a :: l) d = List.last l a.
Proof.
  revert a d. induction l as [|b l IH]; intros a d; [done|].
  change (List.last (a :: b :: l) d) with (List.last (b :: l) d).
  by rewrite (IH b d), (IH b a).
Qed.

Lemma versionStep_fold w bucket awsClient contents :
  ∀ highestPath,
    fold_left (versionStep w bucket awsClient) contents (0, highestPath)
    = (0, List.last
            (List.filter (λ dir, isValidTensorFlowS3Directory w dir awsClient)
               (directoryOf bucket
                  <$> List.filter (λ key, HasSuffix key "saved_model.pb") contents))
            highestPath).
Proof.
  induction contents as [|key rest IH]; intros highestPath; [done|].
  cbn [fold_left]. rewrite versionStep_zero, IH. f_equal.
  cbn [List.filter]. destruct (HasSuffix key "saved_model.pb"); simpl; [|done].
  destruct (isValidTensorFlowS3Directory w (directoryOf bucket key) awsClient);
    [|done].
  by rewrite last_cons_default.
Qed.

(** getTFServingExportFromS3Path on a path that is no TensorFlow directory
    itself: of the listed keys that end in "saved_model.pb", it returns the
    directory of the last one, in listing order, whose directory is a valid
    TensorFlow directory, and the empty string when there is none; the
    numbers in the keys play no part. *)
Theorem getTFServingExportFromS3Path_selects_last_valid w path awsClient
    bucket prefix :
  isValidTensorFlowS3Directory w path awsClient = false →
  SplitS3Path w path = inr (bucket, prefix) →
  getTFServingExportFromS3Path w path awsClient
  = (List.last
       (List.filter (λ dir, isValidTensorFlowS3Directory w dir awsClient)
          (directoryOf bucket
             <$> List.filter (λ key, HasSuffix key "saved_model.pb")
                   (ListObjects w awsClient bucket (EnsureSuffix prefix "/"))))
       "",
     None).
Proof.
  intros Hinvalid Hsplit. unfold getTFServingExportFromS3Path.
  rewrite Hinvalid, Hsplit. by rewrite versionStep_fold.
Qed.

Lemma getTFServingExportFromS3Path_selects_last_valid_witness :
  getTFServingExportFromS3Path Scenario.brokenLatest "s3://b/m/" "b"
  = (List.last
       (List.filter
          (λ dir, isValidTensorFlowS3Directory Scenario.brokenLatest dir "b")
          (directoryOf "b"
             <$> List.filter (λ key, HasSuffix key "saved_model.pb")
                   (ListObjects Scenario.brokenLatest "b" "b"
                      (EnsureSuffix "m/" "/"))))
       "",
     None).
Proof.
  apply (getTFServingExportFromS3Path_selects_last_valid Scenario.brokenLatest
           "s3://b/m/" "b" "b" "m/").
  - vm_compute. reflexivity.
  - vm_compute. reflexivity.
Defined.

(** A TensorFlow predictor that validateTensorFlowPredictor accepts has a
    model for whose bucket a client could be had, and either the model ends
    in ".zip", is a single existing object and the predictor is left as it
    was, or the predictor's model is now a valid TensorFlow directory: the
    model path itself when that is one, a directory found under it
    otherwise. *)
Theorem validateTensorFlowPredictor_accepts w predictor predictor' :
  validateTensorFlowPredictor w predictor = (predictor', None) →
  ∃ model awsClient,
    Model predictor = Some model
    ∧ NewFromS3Path w model = inr awsClient
    ∧ ((HasSuffix model ".zip" = true
        ∧ IsS3PathFile w awsClient [model] = (true, None)
        ∧ predictor' = predictor)
       ∨ (HasSuffix model ".zip" = false
          ∧ ∃ dir, predictor' = setModel predictor (Some dir)
                   ∧ dir ≠ ""
                   ∧ isValidTensorFlowS3Directory w dir awsClient = true
                   ∧ (isValidTensorFlowS3Directory w model awsClient = true →
                      dir = model))).
Proof.
  unfold validateTensorFlowPredictor.
  destruct (Model predictor) as [model|]; [|done].
  destruct (NewFromS3Path w model) as [message|awsClient] eqn:Hclient; [done|].
  intros Hok. exists model, awsClient. split; [done|]. split; [done|].
  destruct (HasSuffix model ".zip").
  - left. destruct (IsS3PathFile w awsClient [model]) as [[|] [message|]];
      try done. by injection Hok as <-.
  - right. split; [done|].
    destruct (getTFServingExportFromS3Path w model awsClient) as [dir [e|]] eqn:Hexport;
      [done|].
    destruct (String.eqb dir "") eqn:Hempty; [done|].
    apply String.eqb_neq in Hempty. injection Hok as <-.
    exists dir. split; [done|]. split; [done|].
    split; [by eapply getTFServingExportFromS3Path_valid|].
    intros Hvalid. unfold getTFServingExportFromS3Path in Hexport.
    rewrite Hvalid in Hexport. by injection Hexport.
Qed.

Lemma validateTensorFlowPredictor_accepts_witness :
  ∃ model awsClient,
    Some "s3://b/m/" = Some model
    ∧ NewFromS3Path Scenario.brokenLatest model = inr awsClient.
Proof.
  destruct (validateTensorFlowPredictor_accepts Scenario.brokenLatest
              {| Type_ := TensorFlowPredictorType; Path := "p.py";
                 Model := Some "s3://b/m/"; PythonPath := None; Config := [];
                 Env := ∅; SignatureKey := None |}
              {| Type_ := TensorFlowPredictorType; Path := "p.py";
                 Model := Some "s3://b/m/1"; PythonPath := None; Config := [];
                 Env := ∅; SignatureKey := None |})
    as (model & awsClient & Hmodel & Hclient & _).
  - vm_compute. reflexivity.
  - by exists model, awsClient.
Defined.

(** ** An accepted manifest *)

Lemma validateCompute_lowers w compute maxMem maxMem' :
  validateCompute w compute maxMem = (maxMem', None) →
  maxMem' = maxMem - reservedMem w.
Proof.
  unfold validateCompute. rewrite validateAvailableCompute_cases.
  repeat (destruct (_ <? _); [done|]). by intros [= <- _].
Qed.

Lemma validateAll_accepted w projectFileMap virtualServices apis :
  ∀ maxMem apis' maxMem',
    validateAll w projectFileMap virtualServices maxMem apis
      = Returns (apis', maxMem', None) →
    Forall2 (λ entry entry',
               ∃ api predictor,
                 entry = Some api
                 ∧ entry' = Some (setPredictor (withEndpoint api) predictor)
                 ∧ validatePredictor w (Predictor_ api) projectFileMap
                   = (predictor, None)
                 ∧ validateEndpointCollisions
                     (setPredictor (withEndpoint api) predictor) virtualServices
                   = Returns None)
            apis apis'
    ∧ maxMem' = maxMem - Z.of_nat (length apis) * reservedMem w
    ∧ (∀ k api,
         apis !! k = Some (Some api) →
         validateCompute w (Compute_ api) (maxMem - Z.of_nat k * reservedMem w)
         = (maxMem - Z.of_nat (S k) * reservedMem w, None)).
Proof.
  induction apis as [|entry rest IH]; intros maxMem apis' maxMem' Hall;
    simpl in Hall.
  { injection Hall as <- <-. split; [constructor|]. split; [simpl; lia|].
    intros k api Hk. by rewrite lookup_nil in Hk. }
  destruct entry as [api|]; [|done].
  destruct (validateAPI w (Some api) _ _ _) as [[[api1 m1] [e|]]|] eqn:Hapi;
    [done| |done].
  destruct (validateAll w _ _ m1 rest) as [[[rest1 m2] err]|] eqn:Hrest; [|done].
  injection Hall as <- <- ->.
  apply validateAPI_inv in Hapi as (predictor & perr & Hp & -> & Hcases).
  destruct perr as [e|]; [by destruct Hcases|].
  destruct Hcases as (cerr & Hc & Hcases). destruct cerr as [e|]; [done|].
  pose proof (validateCompute_lowers _ _ _ _ Hc) as ->.
  destruct (IH _ _ _ Hrest) as (Hforall & -> & Hmem).
  split; [|split].
  - constructor; [|done]. by exists api, predictor.
  - cbn [length]. lia.
  - intros [|k] api0 Hk.
    + injection Hk as <-.
      replace (maxMem - Z.of_nat 0 * reservedMem w) with maxMem by lia.
      rewrite Hc. f_equal. lia.
    + cbn in Hk. specialize (Hmem k api0 Hk).
      replace (maxMem - Z.of_nat (S k) * reservedMem w)
        with (maxMem - reservedMem w - Z.of_nat k * reservedMem w) by lia.
      rewrite Hmem. f_equal. lia.
Qed.

Lemma validateAPIs_accepted w rangeOrder apis projectFileMap apis' :
  validateAPIs w rangeOrder apis projectFileMap = Returns (apis', None) →
  ∃ virtualServices maxMem maxMem',
    apis ≠ []
    ∧ findDuplicateNames rangeOrder apis = Returns []
    ∧ ListVirtualServices w = inr virtualServices
    ∧ updateMemoryCapacityConfigMap w = inr maxMem
    ∧ validateAll w projectFileMap virtualServices maxMem apis
      = Returns (apis', maxMem', None).
Proof.
  unfold validateAPIs. destruct apis as [|entry apis]; [done|].
  cbn [length Nat.eqb].
  destruct (findDuplicateNames rangeOrder (entry :: apis)) as [dups|]; [|done].
  destruct dups as [|dup dups]; [|done]. cbn [length Nat.ltb Nat.leb].
  unfold getValidationK8sResources.
  destruct (ListVirtualServices w) as [|virtualServices]; [done|].
  destruct (updateMemoryCapacityConfigMap w) as [|maxMem]; [done|].
  destruct (validateAll _ _ _ _ _) as [[[out maxMem'] err]|] eqn:Hall; [|done].
  intros [= -> ->]. by exists virtualServices, maxMem, maxMem'.
Qed.

Lemma accepted_pointees (apis apis' : list (option API)) (R : API → API → Prop) :
  Forall2 (λ entry entry', ∃ api api', entry = Some api ∧ entry' = Some api'
                                       ∧ R api api') apis apis' →
  ∃ pointees pointees',
    apis = Some <$> pointees ∧ apis' = Some <$> pointees'
    ∧ Forall2 R pointees pointees'.
Proof.
  induction 1 as [|entry entry' apis apis' (api & api' & -> & -> & HR) _ IH].
  { by exists [], []. }
  destruct IH as (pointees & pointees' & -> & -> & Hrest).
  exists (api :: pointees), (api' :: pointees'). split; [done|]. split; [done|].
  by constructor.
Qed.

(** A manifest that validateAPIs accepts is not empty, holds no nil pointer,
    and its names are pairwise distinct, whatever the order in which the
    runtime hands out the keys of the map of names. *)
Theorem validateAPIs_accepts_distinct_names w rangeOrder apis projectFileMap apis' :
  (∀ keys, rangeOrder keys ≡ₚ keys) →
  validateAPIs w rangeOrder apis projectFileMap = Returns (apis', None) →
  ∃ pointees,
    apis = Some <$> pointees ∧ pointees ≠ [] ∧ NoDup (Name <$> pointees).
Proof.
  intros Hperm Hok.
  destruct (validateAPIs_accepted _ _ _ _ _ Hok)
    as (virtualServices & maxMem & maxMem' & Hne & Hdups & _ & _ & Hall).
  apply validateAll_accepted in Hall as (Hforall & _).
  destruct (accepted_pointees apis apis' (λ _ _, True)) as (pointees & _ & -> & _).
  { eapply Forall2_impl; [exact Hforall|].
    intros entry entry' (api & predictor & -> & -> & _). by eexists _, _. }
  exists pointees. split; [done|]. split; [by destruct pointees|].
  unfold findDuplicateNames in Hdups.
  destruct (collectNames_groups pointees ∅) as (final & Hfinal & Hgroups & Hdom).
  rewrite Hfinal in Hdups. injection Hdups as Hdups.
  apply named_NoDup. intros name.
  destruct (firstGroup_cases final (rangeOrder (elements (dom final))))
    as [[_ Hshort]|(name' & _ & Heq & Hlong)].
  - destruct (named name pointees) as [|api rest] eqn:Hnamed; [simpl; lia|].
    rewrite <- Hnamed.
    assert (Hin : name ∈ Name <$> pointees).
    { destruct (decide (name ∈ Name <$> pointees)) as [|Hout]; [done|].
      apply named_absent in Hout. congruence. }
    specialize (Hshort name). rewrite Hgroups, lookup_empty in Hshort.
    apply Hshort. rewrite Hperm, elem_of_elements, Hdom. by right.
  - rewrite Hdups in Heq. rewrite <- Heq in Hlong. simpl in Hlong. lia.
Qed.

Lemma validateAPIs_accepts_distinct_names_witness :
  ∃ pointees,
    Scenario.sameEndpoint = Some <$> pointees ∧ pointees ≠ []
    ∧ NoDup (Name <$> pointees).
Proof.
  apply (validateAPIs_accepts_distinct_names Scenario.empty Scenario.backwards
           Scenario.sameEndpoint Scenario.projectFiles Scenario.sameEndpoint).
  - intros keys. unfold Scenario.backwards. symmetry. apply Permutation_rev.
  - vm_compute. reflexivity.
Defined.

(** What validateAPIs leaves of an accepted manifest: entry by entry the same
    API, with the endpoint it had or, when it had none, "/" followed by
    its name, with the predictor as validatePredictor accepted and left it,
    and with name, tracker, compute, index and file path untouched. *)
Theorem validateAPIs_accepts_endpoints w rangeOrder apis projectFileMap apis' :
  validateAPIs w rangeOrder apis projectFileMap = Returns (apis', None) →
  Forall2 (λ entry entry',
             ∃ api api',
               entry = Some api ∧ entry' = Some api'
               ∧ Endpoint api' = Some (default ("/" +:+ Name api) (Endpoint api))
               ∧ validatePredictor w (Predictor_ api) projectFileMap
                 = (Predictor_ api', None)
               ∧ Name api' = Name api
               ∧ Tracker_ api' = Tracker_ api
               ∧ Compute_ api' = Compute_ api
               ∧ Index api' = Index api
               ∧ FilePath api' = FilePath api)
          apis apis'.
Proof.
  intros Hok.
  destruct (validateAPIs_accepted _ _ _ _ _ Hok)
    as (virtualServices & maxMem & maxMem' & _ & _ & _ & _ & Hall).
  apply validateAll_accepted in Hall as (Hforall & _).
  eapply Forall2_impl; [exact Hforall|].
  intros entry entry' (api & predictor & -> & -> & Hp & _).
  exists api, (setPredictor (withEndpoint api) predictor).
  split; [done|]. split; [done|].
  split; [cbn; apply withEndpoint_Endpoint|]. split; [done|].
  unfold withEndpoint. by destruct (Endpoint api).
Qed.

Lemma validateAPIs_accepts_endpoints_witness :
  Forall2 (λ entry entry',
             ∃ api api',
               entry = Some api ∧ entry' = Some api'
               ∧ Endpoint api' = Some (default ("/" +:+ Name api) (Endpoint api))
               ∧ validatePredictor Scenario.empty (Predictor_ api)
                   Scenario.projectFiles
                 = (Predictor_ api', None)
               ∧ Name api' = Name api
               ∧ Tracker_ api' = Tracker_ api
               ∧ Compute_ api' = Compute_ api
               ∧ Index api' = Index api
               ∧ FilePath api' = FilePath api)
          (Some <$> Examples.threeAPIs)
          [Some (Scenario.pythonAPI "a" (Some "/a") 0 (Some Scenario.mem3200));
           Some (Scenario.pythonAPI "b" (Some "/custom") 1 None);
           Some (Scenario.pythonAPI "c" (Some "/c") 2 None)].
Proof.
  apply (validateAPIs_accepts_endpoints Scenario.empty Scenario.forwards
           (Some <$> Examples.threeAPIs) Scenario.projectFiles).
  vm_compute. reflexivity.
Defined.

(** No API of an accepted manifest collides with the cluster: every virtual
    service could be read, and one that is bound to the API gateway and
    serves the endpoint of an accepted API is labelled with that API's
    name. *)
Theorem validateAPIs_accepts_no_collision w rangeOrder apis projectFileMap apis' :
  validateAPIs w rangeOrder apis projectFileMap = Returns (apis', None) →
  ∃ virtualServices,
    ListVirtualServices w = inr virtualServices
    ∧ Forall (λ entry', ∃ api' endpoint,
                 entry' = Some api' ∧ Endpoint api' = Some endpoint
                 ∧ Forall (compatible (Name api') endpoint) virtualServices)
             apis'.
Proof.
  intros Hok.
  destruct (validateAPIs_accepted _ _ _ _ _ Hok)
    as (virtualServices & maxMem & maxMem' & _ & _ & Hvs & _ & Hall).
  exists virtualServices. split; [done|].
  apply validateAll_accepted in Hall as (Hforall & _). clear Hok.
  induction Hforall as [|entry entry' apis apis' Hentry _ IH]; [constructor|].
  constructor; [|done].
  destruct Hentry as (api & predictor & -> & -> & _ & Hcollisions).
  eexists _, _. split; [done|]. split; [cbn; apply withEndpoint_Endpoint|].
  eapply validateEndpointCollisions_compatible; [|exact Hcollisions].
  cbn. apply withEndpoint_Endpoint.
Qed.

Lemma validateAPIs_accepts_no_collision_witness :
  ∃ virtualServices,
    ListVirtualServices (Scenario.world [] [] [Examples.taken] 0)
    = inr virtualServices
    ∧ Forall (λ entry', ∃ api' endpoint,
                 entry' = Some api' ∧ Endpoint api' = Some endpoint
                 ∧ Forall (compatible (Name api') endpoint) virtualServices)
             [Some (Scenario.pythonAPI "a" (Some "/a") 0 None)].
Proof.
  apply (validateAPIs_accepts_no_collision (Scenario.world [] [] [Examples.taken] 0)
           Scenario.forwards [Some (Scenario.pythonAPI "a" None 0 None)]
           Scenario.projectFiles).
  vm_compute. reflexivity.
Defined.

(** The API at position k of an accepted manifest passed validateCompute
    against the memory of a node lowered k times by the reservations, and
    left it lowered once more: the later an API stands in the manifest, the
    less memory it may ask for. *)
Theorem validateAPIs_accepts_shrinking_memory w rangeOrder apis projectFileMap
    apis' :
  validateAPIs w rangeOrder apis projectFileMap = Returns (apis', None) →
  ∃ maxMem,
    updateMemoryCapacityConfigMap w = inr maxMem
    ∧ ∀ k api,
        apis !! k = Some (Some api) →
        validateCompute w (Compute_ api) (maxMem - Z.of_nat k * reservedMem w)
        = (maxMem - Z.of_nat (S k) * reservedMem w, None).
Proof.
  intros Hok.
  destruct (validateAPIs_accepted _ _ _ _ _ Hok)
    as (virtualServices & maxMem & maxMem' & _ & _ & _ & Hmem & Hall).
  exists maxMem. split; [done|].
  by apply validateAll_accepted in Hall as (_ & _ & Hchecks).
Qed.

Lemma validateAPIs_accepts_shrinking_memory_witness :
  ∃ maxMem,
    updateMemoryCapacityConfigMap Scenario.empty = inr maxMem
    ∧ ∀ k api,
        (Some <$> Examples.threeAPIs) !! k = Some (Some api) →
        validateCompute Scenario.empty (Compute_ api)
          (maxMem - Z.of_nat k * reservedMem Scenario.empty)
        = (maxMem - Z.of_nat (S k) * reservedMem Scenario.empty, None).
Proof.
  apply (validateAPIs_accepts_shrinking_memory Scenario.empty Scenario.forwards
           (Some <$> Examples.threeAPIs) Scenario.projectFiles
           [Some (Scenario.pythonAPI "a" (Some "/a") 0 (Some Scenario.mem3200));
            Some (Scenario.pythonAPI "b" (Some "/custom") 1 None);
            Some (Scenario.pythonAPI "c" (Some "/c") 2 None)]).
  vm_compute. reflexivity.
Defined.

(** ** A refused manifest *)

Lemma validateAll_rejected w projectFileMap virtualServices apis :
  ∀ maxMem apis' maxMem' err,
    validateAll w projectFileMap virtualServices maxMem apis
      = Returns (apis', maxMem', Some err) →
    ∃ front api back front' api' passed,
      apis = (front ++ Some api :: back)%list
      ∧ apis' = (front' ++ Some api' :: back)%list
      ∧ validateAll w projectFileMap virtualServices maxMem front
        = Returns (front', passed, None)
      ∧ validateAPI w (Some api) projectFileMap virtualServices passed
        = Returns (api', maxMem', Some err).
Proof.
  induction apis as [|entry rest IH]; intros maxMem apis' maxMem' err Hall;
    simpl in Hall; [done|].
  destruct entry as [api|]; [|done].
  destruct (validateAPI w (Some api) _ _ _) as [[[api1 m1] [e|]]|] eqn:Hapi;
    [| |done].
  - injection Hall as <- <- <-. by exists [], api, rest, [], api1, maxMem.
  - destruct (validateAll w _ _ m1 rest) as [[[rest1 m2] e]|] eqn:Hrest; [|done].
    injection Hall as <- <- ->.
    destruct (IH _ _ _ _ Hrest)
      as (front & api0 & back & front' & api' & passed & -> & -> & Hfront & Hlast).
    exists (Some api :: front), api0, back, (Some api1 :: front'), api', passed.
    split; [done|]. split; [done|]. split; [|done].
    cbn [validateAll]. by rewrite Hapi, Hfront.
Qed.



(** ** Reading the manifest *)

Lemma extractLoop_first_invalid w filePath front data back err :
  Forall (λ entry, ∃ api, Struct w entry = inr api) front →
  Struct w data = inl err →
  ∀ i apis,
    extractLoop w filePath i (front ++ data :: back) apis
    = inl (Wrap err [IdentifyAPI filePath (default "" (raw_name data))
                       (i + Z.of_nat (length front))]).
Proof.
  intros Hfront Hdata.
  induction Hfront as [|entry front [api Hentry] _ IH]; intros i apis;
    cbn [app extractLoop length].
  - rewrite Hdata. change (Z.of_nat 0) with 0. by rewrite Z.add_0_r.
  - rewrite Hentry, IH, Nat2Z.inj_succ.
    by replace (i + 1 + Z.of_nat (length front))
      with (i + Z.succ (Z.of_nat (length front))) by lia.
Qed.

(** ExtractAPIConfigs on a manifest with an entry that does not pass
    structural validation: it returns the first error of the first such
    entry, under the file path, the entry's name (empty when it has none)
    and the entry's position, and validates nothing further. *)
Theorem ExtractAPIConfigs_first_invalid_entry w rangeOrder front data back err
    projectFileMap filePath :
  Forall (λ entry, ∃ api, Struct w entry = inr api) front →
  Struct w data = inl err →
  ExtractAPIConfigs w rangeOrder (MapSlice (front ++ data :: back))
    projectFileMap filePath
  = Returns (inl (Wrap err [IdentifyAPI filePath (default "" (raw_name data))
                              (Z.of_nat (length front))])).
Proof.
  intros Hfront Hdata. unfold ExtractAPIConfigs.
  by rewrite (extractLoop_first_invalid w filePath front data back err Hfront Hdata).
Qed.

Lemma ExtractAPIConfigs_first_invalid_entry_witness :
  ExtractAPIConfigs Scenario.empty Scenario.forwards (MapSlice Examples.nameless)
    Scenario.projectFiles "cortex.yaml"
  = Returns (inl (Wrap (ErrorField NameKey "must be defined")
                    [IdentifyAPI "cortex.yaml" "" 1])).
Proof.
  apply (ExtractAPIConfigs_first_invalid_entry Scenario.empty Scenario.forwards
           [Scenario.rawAPI "a" None (Scenario.rawPredictor "python" "p.py" None None)
              None]
           Examples.namelessEntry [] (ErrorField NameKey "must be defined")
           Scenario.projectFiles "cortex.yaml").
  - constructor; [|constructor]. eexists. vm_compute. reflexivity.
  - vm_compute. reflexivity.
Defined.

(** The slice that the loop of ExtractAPIConfigs builds when every entry
    passes structural validation: what was in the slice before, and behind
    it one API per entry, in the order of the manifest, each with its
    position as index and the file path of the manifest. *)
Theorem extractLoop_provenance w filePath configDataSlice :
  ∀ i apis out,
    extractLoop w filePath i configDataSlice apis = inr out →
    length out = (length apis + length configDataSlice)%nat
    ∧ (∀ j entry, apis !! j = Some entry → out !! j = Some entry)
    ∧ (∀ j data,
         configDataSlice !! j = Some data →
         ∃ api, Struct w data = inr api
                ∧ out !! (length apis + j)%nat
                  = Some (Some (setProvenance api (i + Z.of_nat j) filePath))).
Proof.
  induction configDataSlice as [|data rest IH]; intros i apis out Hloop;
    simpl in Hloop.
  { injection Hloop as <-. split; [simpl; lia|]. split; [done|].
    intros j entry Hj. by rewrite lookup_nil in Hj. }
  destruct (Struct w data) as [err|api] eqn:Hdata; [done|].
  destruct (IH _ _ _ Hloop) as (Hlen & Hold & Hnew).
  rewrite length_app in Hlen, Hnew. simpl in Hlen, Hnew.
  split; [simpl; lia|]. split.
  - intros j entry Hj. apply Hold. by apply lookup_app_l_Some.
  - intros [|j] entry Hj.
    + injection Hj as <-. exists api. split; [done|].
      rewrite Nat.add_0_r, Z.add_0_r. apply Hold.
      by rewrite lookup_app_r, Nat.sub_diag by lia.
    + cbn in Hj. destruct (Hnew j entry Hj) as (api0 & Hentry & Hout).
      exists api0. split; [done|].
      replace (length apis + S j)%nat with (length apis + 1 + j)%nat by lia.
      rewrite Hout. do 3 f_equal. lia.
Qed.

Lemma extractLoop_provenance_witness :
  length [None; Some (Scenario.pythonAPI "a" None 0 None)]
  = (length [@None API] + length Scenario.manifest1)%nat.
Proof.
  apply (extractLoop_provenance Scenario.empty "cortex.yaml" Scenario.manifest1 0
           [None] [None; Some (Scenario.pythonAPI "a" None 0 None)]).
  vm_compute. reflexivity.
Defined.

(** ** The validation tables *)

Lemma fits_range bits x :
  fits bits x = true → - 2 ^ (bits - 1) ≤ x < 2 ^ (bits - 1).
Proof. unfold fits. rewrite andb_true_iff, Z.leb_le, Z.ltb_lt. tauto. Qed.

Lemma intField_inv field bits dflt lower v x :
  intField field bits dflt lower v = inr x →
  x = default dflt v
  ∧ (v = None ∨ (- 2 ^ (bits - 1) ≤ x < 2 ^ (bits - 1) ∧ lower ≤ x)).
Proof.
  unfold intField. destruct v as [y|]; [|intros [= <-]; split; [done|by left]].
  destruct (fits bits y) eqn:Hfits; [|done]. simpl.
  destruct (Z.ltb_spec y lower); [done|]. intros [= <-].
  split; [done|]. right. split; [by apply fits_range|done].
Qed.

Lemma QuantityParser_inv w field str q :
  QuantityParser w field str = inr q →
  UserString q = str ∧ ParseQuantity w str = Some (Quantity_ q) ∧ 0 < Quantity_ q.
Proof.
  unfold QuantityParser. destruct (ParseQuantity w str) as [n|]; [|done].
  destruct (Z.leb_spec n 0); [done|]. intros [= <-]. simpl. done.
Qed.

(** A compute that comes out of the compute table: every field the
    manifest leaves out has its default (1, 100, the minimum, 80, "200m",
    no memory, 0), the replica counts and the target utilization are
    positive and fit 32 bits, the GPU count is not negative and fits 64
    bits, and CPU and memory are what the quantity parser makes of their
    strings, both positive. *)
Theorem computeValidation_defaults_and_bounds w raw compute :
  computeValidation w raw = inr compute →
  MinReplicas compute = default 1 (raw_min_replicas (default emptyCompute raw))
  ∧ MaxReplicas compute = default 100 (raw_max_replicas (default emptyCompute raw))
  ∧ InitReplicas compute
    = default (MinReplicas compute) (raw_init_replicas (default emptyCompute raw))
  ∧ TargetCPUUtilization compute
    = default 80 (raw_target_cpu_utilization (default emptyCompute raw))
  ∧ GPU compute = default 0 (raw_gpu (default emptyCompute raw))
  ∧ UserString (CPU compute) = default "200m" (raw_cpu (default emptyCompute raw))
  ∧ UserString <$> Mem compute = raw_mem (default emptyCompute raw)
  ∧ ParseQuantity w (UserString (CPU compute)) = Some (Quantity_ (CPU compute))
  ∧ (∀ mem, Mem compute = Some mem →
       ParseQuantity w (UserString mem) = Some (Quantity_ mem) ∧ 0 < Quantity_ mem)
  ∧ 0 < MinReplicas compute < 2 ^ 31
  ∧ 0 < MaxReplicas compute < 2 ^ 31
  ∧ 0 < InitReplicas compute < 2 ^ 31
  ∧ 0 < TargetCPUUtilization compute < 2 ^ 31
  ∧ 0 < Quantity_ (CPU compute)
  ∧ 0 ≤ GPU compute < 2 ^ 63.
Proof.
  unfold computeValidation, bindE. fold emptyCompute.
  set (r := default emptyCompute raw).
  destruct (intField "min_replicas" _ _ _ _) as [|minReplicas] eqn:Hmin; [done|].
  destruct (intField "max_replicas" _ _ _ _) as [|maxReplicas] eqn:Hmax; [done|].
  destruct (intField "init_replicas" _ _ _ _) as [|initReplicas] eqn:Hinit; [done|].
  destruct (intField "target_cpu_utilization" _ _ _ _) as [|target] eqn:Htarget;
    [done|].
  destruct (QuantityParser w "cpu" _) as [|cpu] eqn:Hcpu; [done|].
  destruct (optField (QuantityParser w "mem") (raw_mem r)) as [|mem] eqn:Hmem;
    [done|].
  destruct (intField "gpu" _ _ _ _) as [|gpu] eqn:Hgpu; [done|].
  intros [= <-]. cbn [MinReplicas MaxReplicas InitReplicas TargetCPUUtilization
                      CPU Mem GPU].
  apply intField_inv in Hmin as [Hmin Hmin'], Hmax as [Hmax Hmax'],
    Hinit as [Hinit Hinit'], Htarget as [Htarget Htarget'], Hgpu as [Hgpu Hgpu'].
  apply QuantityParser_inv in Hcpu as (Hcpu & Hparse & Hpos).
  change (2 ^ (32 - 1)) with (2 ^ 31) in *. change (2 ^ (64 - 1)) with (2 ^ 63) in *.
  assert (Hmemory :
    UserString <$> mem = raw_mem r
    ∧ ∀ q, mem = Some q →
           ParseQuantity w (UserString q) = Some (Quantity_ q) ∧ 0 < Quantity_ q).
  { unfold optField, bindE in Hmem. destruct (raw_mem r) as [str|].
    - destruct (QuantityParser w "mem" str) as [|q] eqn:Hq; [done|].
      injection Hmem as <-. apply QuantityParser_inv in Hq as (Hstr & Hq & Hqpos).
      split; [simpl; congruence|]. intros ? [= <-]. rewrite Hstr. done.
    - injection Hmem as <-. split; [done|]. intros ? [=]. }
  destruct Hmemory as [Hmemory Hmemory'].
  assert (0 < minReplicas < 2 ^ 31)
    by (destruct Hmin' as [Hnone|?]; [rewrite Hmin, Hnone; simpl; lia|lia]).
  assert (0 < maxReplicas < 2 ^ 31)
    by (destruct Hmax' as [Hnone|?]; [rewrite Hmax, Hnone; simpl; lia|lia]).
  assert (0 < initReplicas < 2 ^ 31)
    by (destruct Hinit' as [Hnone|?]; [rewrite Hinit, Hnone; simpl; lia|lia]).
  assert (0 < target < 2 ^ 31)
    by (destruct Htarget' as [Hnone|?]; [rewrite Htarget, Hnone; simpl; lia|lia]).
  assert (0 ≤ gpu < 2 ^ 63)
    by (destruct Hgpu' as [Hnone|?]; [rewrite Hgpu, Hnone; simpl; lia|lia]).
  rewrite Hcpu. repeat (split; [done|]). done.
Qed.

Lemma computeValidation_defaults_and_bounds_witness :
  InitReplicas Scenario.fiveOverThree
  = default (MinReplicas Scenario.fiveOverThree)
      (raw_init_replicas (default emptyCompute Scenario.rawFiveOverThree)).
Proof.
  apply (computeValidation_defaults_and_bounds Scenario.empty
           Scenario.rawFiveOverThree Scenario.fiveOverThree).
  vm_compute. reflexivity.
Defined.

Lemma String_length_append s t :
  String.length (s +:+ t) = (String.length s + String.length t)%nat.
Proof.
  induction s as [|c s IH]; [done|]. rewrite append_String. simpl. by rewrite IH.
Qed.

Lemma substring_append s t :
  substring (String.length s) (String.length t) (s +:+ t) = t.
Proof.
  induction s as [|c s IH]; [apply substring_all|].
  rewrite append_String. simpl. apply IH.
Qed.

Lemma HasSuffix_EnsureSuffix str suffix :
  HasSuffix (EnsureSuffix str suffix) suffix = true.
Proof.
  unfold EnsureSuffix. destruct (HasSuffix str suffix) eqn:Hhas; [done|].
  unfold HasSuffix. rewrite String_length_append.
  apply andb_true_iff. split; [apply Nat.leb_le; lia|].
  replace (String.length str + String.length suffix - String.length suffix)%nat
    with (String.length str) by lia.
  rewrite substring_append. apply String.eqb_refl.
Qed.

(** A predictor that comes out of the predictor table: the entry had a
    predictor with a type and a path, the type is one of python, tensorflow
    and onnx, a pythonPath is set exactly when the entry had one and then
    ends in "/", the model is what the S3 path validator made of the
    entry's, signatureKey is passed on, and config and env are empty when
    left out. *)
Theorem predictorValidation_normalizes w raw predictor :
  predictorValidation w raw = inr predictor →
  ∃ entry type,
    raw = Some entry
    ∧ raw_type entry = Some type
    ∧ Type_ predictor = PredictorTypeFromString type
    ∧ Type_ predictor ≠ UnknownPredictorType
    ∧ raw_path entry = Some (Path predictor)
    ∧ (∀ pythonPath, PythonPath predictor = Some pythonPath →
         HasSuffix pythonPath "/" = true)
    ∧ PythonPath predictor
      = (λ path, EnsureSuffix path "/") <$> raw_python_path entry
    ∧ match raw_model entry with
      | Some model => ∃ valid, S3PathValidator w model = inr valid
                               ∧ Model predictor = Some valid
      | None => Model predictor = None
      end
    ∧ SignatureKey predictor = raw_signature_key entry
    ∧ Config predictor = default [] (raw_config entry)
    ∧ Env predictor = default ∅ (raw_env entry).
Proof.
  unfold predictorValidation, bindE, required.
  destruct raw as [entry|]; [|done].
  destruct (raw_type entry) as [type|] eqn:Htype; [|done].
  destruct (String.eqb type "python" || String.eqb type "tensorflow"
            || String.eqb type "onnx") eqn:Hallowed; [|done].
  destruct (raw_path entry) as [path|] eqn:Hpath; [|done].
  destruct (optField _ (raw_model entry)) as [|model] eqn:Hmodel; [done|].
  intros Hok. exists entry, type.
  assert (Hpython : ∀ v, optField (λ path : string, inr (EnsureSuffix path "/")) v
                         = inr ((λ path, EnsureSuffix path "/") <$> v))
    by (by intros [?|]).
  assert (Hkey : ∀ v : option string, optField inr v = inr v) by (by intros [?|]).
  rewrite Hpython, Hkey in Hok. injection Hok as <-. cbn.
  split; [done|]. split; [done|]. split; [done|]. split.
  { unfold PredictorTypeFromString.
    apply orb_true_iff in Hallowed as [[H|H]%orb_true_iff|H];
      destruct (String.eqb type "python"), (String.eqb type "tensorflow"),
        (String.eqb type "onnx"); done. }
  split; [done|]. split.
  { intros pythonPath. destruct (raw_python_path entry); [|done].
    intros [= <-]. apply HasSuffix_EnsureSuffix. }
  split; [done|]. split; [|done].
  unfold optField, bindE, checked in Hmodel.
  destruct (raw_model entry) as [m|]; [|by injection Hmodel as <-].
  destruct (S3PathValidator w m) as [|valid]; [done|].
  injection Hmodel as <-. by exists valid.
Qed.

Lemma predictorValidation_normalizes_witness :
  ∃ entry type,
    Some (Scenario.rawPredictor "python" "p.py" None None) = Some entry
    ∧ raw_type entry = Some type.
Proof.
  destruct (predictorValidation_normalizes Scenario.empty
              (Some (Scenario.rawPredictor "python" "p.py" None None))
              (Predictor_ (Scenario.pythonAPI "a" None 0 None)))
    as (entry & type & Hentry & Htype & _).
  - vm_compute. reflexivity.
  - by exists entry, type.
Defined.

(** ** More on the autoscaler tick *)

(** numUpdatedReadyReplicas on fewer than 2^31 pods is the number of pods
    that carry the deployment's API label, are ready and run the latest
    spec: never negative, never more than there are pods, and pods of other
    APIs do not count. *)
Theorem numUpdatedReadyReplicas_exact IsPodReady IsPodSpecLatest deployment pods :
  Z.of_nat (length pods) < 2 ^ 31 →
  Cron.numUpdatedReadyReplicas IsPodReady IsPodSpecLatest deployment pods
  = Z.of_nat (readyPods IsPodReady IsPodSpecLatest deployment pods)
  ∧ 0 ≤ Cron.numUpdatedReadyReplicas IsPodReady IsPodSpecLatest deployment pods
    ≤ Z.of_nat (length pods)
  ∧ Cron.numUpdatedReadyReplicas IsPodReady IsPodSpecLatest deployment pods
    = Cron.numUpdatedReadyReplicas IsPodReady IsPodSpecLatest deployment
        (List.filter
           (λ pod, String.eqb (index (kmeta.Labels (Cron.PodMeta pod)) "apiName")
                              (apiName deployment)) pods).
Proof.
  intros Hlen.
  assert (Hle : ∀ l, (readyPods IsPodReady IsPodSpecLatest deployment l ≤ length l)%nat)
    by (intros l; apply List.filter_length_le).
  assert (Hsame :
    readyPods IsPodReady IsPodSpecLatest deployment
      (List.filter
         (λ pod, String.eqb (index (kmeta.Labels (Cron.PodMeta pod)) "apiName")
                            (apiName deployment)) pods)
    = readyPods IsPodReady IsPodSpecLatest deployment pods).
  { unfold readyPods. f_equal. induction pods as [|pod pods IH]; [done|].
    cbn [List.filter].
    destruct (String.eqb _ (apiName deployment)) eqn:Hlabel; cbn [List.filter andb].
    - rewrite Hlabel. cbn [andb]. rewrite IH; [done|]. simpl in Hlen. lia.
    - apply IH. simpl in Hlen. lia. }
  rewrite !numUpdatedReadyReplicas_count, Hsame.
  pose proof (Hle pods).
  rewrite int32_small by lia. split; [done|]. split; [lia|done].
Qed.

Lemma numUpdatedReadyReplicas_exact_witness :
  Cron.numUpdatedReadyReplicas Scenario.allReady Scenario.allLatest
    Scenario.rolledOut
    [Examples.pod "p1" ""; Examples.pod "p2" ""]
  = Z.of_nat (readyPods Scenario.allReady Scenario.allLatest Scenario.rolledOut
                [Examples.pod "p1" ""; Examples.pod "p2" ""]).
Proof.
  apply (numUpdatedReadyReplicas_exact Scenario.allReady Scenario.allLatest
           Scenario.rolledOut [Examples.pod "p1" ""; Examples.pod "p2" ""]).
  vm_compute. reflexivity.
Defined.



Lemma deploymentStep_installed IsPodReady IsPodSpecLatest now st deployment :
  apiName deployment ∈ Cron.HPAs (Cron.cluster st) →
  Cron.deploymentStep IsPodReady IsPodSpecLatest now st deployment = st.
Proof.
  intros Hhas. unfold Cron.deploymentStep, Cron.HPAExists.
  fold (apiName deployment). by rewrite bool_decide_eq_true_2.
Qed.

(** When every deployment already has its autoscaler, updateHPAs does not
    even list the pods: it returns nil and leaves the cluster alone, also
    when the pods could not have been listed. *)
Theorem updateHPAs_nothing_to_do IsPodReady IsPodSpecLatest now k deployments :
  (∀ deployment, deployment ∈ deployments →
     Cron.HPAExists k
       (index (kmeta.Labels (Cron.DeploymentMeta deployment)) "apiName") = true) →
  Cron.updateHPAs IsPodReady IsPodSpecLatest now k deployments = (k, None)
  ∧ Cron.allPods (Cron.tick IsPodReady IsPodSpecLatest now k deployments) = None.
Proof.
  intros Hall. unfold Cron.updateHPAs, Cron.tick.
  set (st := {| Cron.cluster := k; Cron.allPods := None; Cron.errs := [];
                Cron.created := [] |}).
  assert (Hfold : fold_left (Cron.deploymentStep IsPodReady IsPodSpecLatest now)
                    deployments st = st).
  { assert (Hst : Cron.cluster st = k) by done. clearbody st.
    induction deployments as [|deployment rest IH]; [done|]. cbn [fold_left].
    rewrite deploymentStep_installed.
    - apply IH. intros d Hd. apply Hall. by right.
    - rewrite Hst. assert (Hhas : deployment ∈ deployment :: rest) by (by left).
      apply Hall in Hhas. unfold Cron.HPAExists in Hhas.
      by apply bool_decide_eq_true_1 in Hhas. }
  by rewrite Hfold.
Qed.

Lemma updateHPAs_nothing_to_do_witness :
  Cron.updateHPAs Scenario.allReady Scenario.allLatest 0 Examples.installed
    [Scenario.rolledOut]
  = (Examples.installed, None).
Proof.
  apply (updateHPAs_nothing_to_do Scenario.allReady Scenario.allLatest 0
           Examples.installed [Scenario.rolledOut]).
  intros deployment [->|Hin]%elem_of_cons; [vm_compute; reflexivity|].
  by apply elem_of_nil in Hin.
Defined.

(** When the pods cannot be listed, updateHPAs creates nothing and leaves the
    cluster alone; it returns the listing error if some deployment lacks its
    autoscaler, and nil if none does. *)
Theorem updateHPAs_pods_unlistable IsPodReady IsPodSpecLatest now k deployments
    message :
  Cron.ListPodsWithLabels k = inl message →
  (Cron.updateHPAs IsPodReady IsPodSpecLatest now k deployments).1 = k
  ∧ Cron.created (Cron.tick IsPodReady IsPodSpecLatest now k deployments) = []
  ∧ (Cron.updateHPAs IsPodReady IsPodSpecLatest now k deployments).2
    = if forallb (λ deployment,
                    Cron.HPAExists k
                      (index (kmeta.Labels (Cron.DeploymentMeta deployment))
                         "apiName"))
           deployments
      then None else Some (ErrorIO message).
Proof.
  intros Hpods. unfold Cron.updateHPAs, Cron.tick. cbn [fst snd].
  assert (Hfold : ∀ errs,
    let st := fold_left (Cron.deploymentStep IsPodReady IsPodSpecLatest now)
                deployments
                {| Cron.cluster := k; Cron.allPods := None; Cron.errs := errs;
                   Cron.created := [] |} in
    Cron.cluster st = k ∧ Cron.created st = []
    ∧ Cron.errs st
      = (errs ++ replicate
                   (length (List.filter
                              (λ deployment,
                                 negb (Cron.HPAExists k
                                         (index (kmeta.Labels
                                                   (Cron.DeploymentMeta deployment))
                                            "apiName")))
                              deployments))
                   (ErrorIO message))%list).
  { induction deployments as [|deployment rest IH]; intros errs; cbn [fold_left].
    { simpl. by rewrite app_nil_r. }
    assert (Hstep :
      Cron.deploymentStep IsPodReady IsPodSpecLatest now
        {| Cron.cluster := k; Cron.allPods := None; Cron.errs := errs;
           Cron.created := [] |} deployment
      = {| Cron.cluster := k; Cron.allPods := None;
           Cron.errs :=
             if Cron.HPAExists k
                  (index (kmeta.Labels (Cron.DeploymentMeta deployment)) "apiName")
             then errs else (errs ++ [ErrorIO message])%list;
           Cron.created := [] |}).
    { unfold Cron.deploymentStep. cbn [Cron.cluster Cron.allPods Cron.errs Cron.created].
      destruct (Cron.HPAExists k _); [done|]. by rewrite Hpods. }
    rewrite Hstep. cbn [List.filter].
    destruct (Cron.HPAExists k _) eqn:Hhas; cbn [negb].
    - apply IH.
    - destruct (IH (errs ++ [ErrorIO message])%list) as (Hk & Hc & He).
      split; [done|]. split; [done|]. rewrite He. cbn [length replicate].
      by rewrite <- app_assoc. }
  destruct (Hfold []) as (Hk & Hc & He). split; [done|]. split; [done|].
  rewrite He. cbn [app]. clear.
  induction deployments as [|deployment rest IH]; [done|]. cbn [List.filter forallb].
  destruct (Cron.HPAExists k _); cbn [negb andb]; [done|]. done.
Qed.

Lemma updateHPAs_pods_unlistable_witness :
  (Cron.updateHPAs Scenario.allReady Scenario.allLatest 0 Examples.unlistable
     [Scenario.rolledOut]).1
  = Examples.unlistable.
Proof.
  apply (updateHPAs_pods_unlistable Scenario.allReady Scenario.allLatest 0
           Examples.unlistable [Scenario.rolledOut] "pods unavailable").
  reflexivity.
Defined.

(** ** The telemetry event does not depend on the order of the nodes *)

Lemma filter_length_Permutation {A} (f : A → bool) (l l' : list A) :
  l ≡ₚ l' → length (List.filter f l) = length (List.filter f l').
Proof.
  induction 1 as [|x l l' _ IH|x y l|l l' l'' _ IH _ IH']; cbn [List.filter].
  - done.
  - destruct (f x); simpl; by rewrite IH.
  - by destruct (f x), (f y).
  - by rewrite IH.
Qed.

(** The lookups of the map of counts after the loop of telemetryCron. *)
Lemma countNode_lookup nodes bucket :
  Z.of_nat (length nodes) < 2 ^ 63 →
  (fold_left Cron.countNode nodes (∅, 0)).1 !! bucket
  = if (bucketed bucket nodes =? 0)%nat then None
    else Some (Z.of_nat (bucketed bucket nodes)).
Proof.
  intros Hlen.
  destruct (countNode_invariant nodes Hlen) as (Hcount & Hsome & _).
  specialize (Hcount bucket). specialize (Hsome bucket).
  destruct ((fold_left Cron.countNode nodes (∅, 0)).1 !! bucket) as [x|] eqn:Hx.
  - simpl in Hcount. assert (0 < bucketed bucket nodes)%nat as Hpos by eauto.
    destruct (Nat.eqb_spec (bucketed bucket nodes) 0); [lia|]. by rewrite Hcount.
  - simpl in Hcount. destruct (Nat.eqb_spec (bucketed bucket nodes) 0); [done|lia].
Qed.

(** telemetryCron sends the same event for the same nodes listed in another
    order (for fewer than 2^63 nodes, which every Go slice has). *)
Theorem telemetryCron_order_independent nodes nodes' :
  nodes ≡ₚ nodes' →
  Z.of_nat (length nodes) < 2 ^ 63 →
  Cron.telemetryCron (inr nodes) = Cron.telemetryCron (inr nodes').
Proof.
  intros Hperm Hlen.
  assert (Hlen' : Z.of_nat (length nodes') < 2 ^ 63)
    by (by rewrite <- (Permutation_length Hperm)).
  unfold Cron.telemetryCron.
  pose proof (countNode_lookup nodes) as Hlookup.
  pose proof (countNode_lookup nodes') as Hlookup'.
  destruct (countNode_invariant nodes Hlen) as (_ & _ & Htotal & _).
  destruct (countNode_invariant nodes' Hlen') as (_ & _ & Htotal' & _).
  destruct (fold_left Cron.countNode nodes (∅, 0)) as [counts total].
  destruct (fold_left Cron.countNode nodes' (∅, 0)) as [counts' total'].
  cbn [fst snd] in *.
  assert (counts = counts') as ->.
  { apply map_eq. intros bucket.
    rewrite Hlookup, Hlookup' by done. unfold bucketed.
    by rewrite (filter_length_Permutation _ _ _ Hperm). }
  rewrite Htotal, Htotal'. unfold workers.
  by rewrite (filter_length_Permutation _ _ _ Hperm).
Qed.

Lemma telemetryCron_order_independent_witness :
  Cron.telemetryCron (inr Scenario.fleet)
  = Cron.telemetryCron (inr (rev Scenario.fleet)).
Proof.
  apply (telemetryCron_order_independent Scenario.fleet (rev Scenario.fleet)).
  - apply Permutation_rev.
  - vm_compute. reflexivity.
Defined.

(** ** Sweeping the evicted pods *)

Section SweepProofs.

Variable Cluster : Type.
Variable DeletePod : Cluster → string → Cluster * option Error.

Local Abbreviation sweep := (fold_left (Sweep.sweepStep Cluster DeletePod)).

(** The errors of a sweep are appended to those collected before it. *)
Lemma sweep_errs pods k errs :
  sweep pods (k, errs)
  = ((sweep pods (k, [])).1, (errs ++ (sweep pods (k, [])).2)%list).
Proof.
  revert k errs. induction pods as [|pod pods IH]; intros k errs; cbn [fold_left].
  { simpl. by rewrite app_nil_r. }
  unfold Sweep.sweepStep at 2 4 6.
  destruct (String.eqb _ _); [|apply IH].
  destruct (DeletePod k _) as [k' [err|]]; [|apply IH].
  rewrite (IH k' (errs ++ [err])%list), (IH k' ([] ++ [err])%list).
  cbn [fst snd]. by rewrite <- app_assoc.
Qed.

Lemma sweep_filter pods st :
  sweep pods st
  = sweep (List.filter (λ pod, String.eqb (Cron.Reason pod) Sweep.ReasonEvicted) pods) st.
Proof.
  revert st. induction pods as [|pod pods IH]; intros st; [done|].
  cbn [fold_left List.filter].
  destruct (String.eqb (Cron.Reason pod) Sweep.ReasonEvicted) eqn:Hreason.
  - cbn [fold_left]. apply IH.
  - rewrite <- IH. f_equal. unfold Sweep.sweepStep. destruct st. by rewrite Hreason.
Qed.

End SweepProofs.

(** deleteEvictedPods only ever deletes pods whose reason is Evicted: the
    cluster and the error it returns are those of sweeping the evicted pods
    alone, and with no evicted pod it returns nil and leaves the cluster
    alone, whatever DeletePod would do. *)
Theorem deleteEvictedPods_only_evicted Cluster DeletePod (k : Cluster) failedPods :
  Sweep.deleteEvictedPods Cluster DeletePod k failedPods
  = Sweep.deleteEvictedPods Cluster DeletePod k
      (List.filter (λ pod, String.eqb (Cron.Reason pod) "Evicted") failedPods)
  ∧ (List.filter (λ pod, String.eqb (Cron.Reason pod) "Evicted") failedPods = [] →
     Sweep.deleteEvictedPods Cluster DeletePod k failedPods = (k, None)).
Proof.
  assert (Heq : Sweep.deleteEvictedPods Cluster DeletePod k failedPods
    = Sweep.deleteEvictedPods Cluster DeletePod k
        (List.filter (λ pod, String.eqb (Cron.Reason pod) "Evicted") failedPods)).
  { unfold Sweep.deleteEvictedPods.
    by rewrite (sweep_filter Cluster DeletePod failedPods). }
  split; [done|]. intros Hnone. by rewrite Heq, Hnone.
Qed.

Lemma deleteEvictedPods_only_evicted_witness :
  Sweep.deleteEvictedPods (gset string) Examples.deletePod {["p2"]}
    [Examples.pod "p2" "OOMKilled"]
  = ({["p2"]}, None).
Proof.
  apply (deleteEvictedPods_only_evicted (gset string) Examples.deletePod {["p2"]}
           [Examples.pod "p2" "OOMKilled"]).
  reflexivity.
Defined.

(** deleteEvictedPods does not stop at a failed deletion: sweeping two lists
    of pods one after the other is sweeping the second on the cluster the
    first sweep left, and the error returned is the first sweep's if it had
    one, the second's otherwise. *)
Theorem deleteEvictedPods_continues Cluster DeletePod (k : Cluster) pods1 pods2 :
  Sweep.deleteEvictedPods Cluster DeletePod k (pods1 ++ pods2)%list
  = let '(k1, err1) := Sweep.deleteEvictedPods Cluster DeletePod k pods1 in
    let '(k2, err2) := Sweep.deleteEvictedPods Cluster DeletePod k1 pods2 in
    (k2, match err1 with Some err => Some err | None => err2 end).
Proof.
  unfold Sweep.deleteEvictedPods. rewrite fold_left_app.
  destruct (fold_left _ pods1 (k, [])) as [k1 errs1].
  rewrite (sweep_errs Cluster DeletePod pods2 k1 errs1).
  destruct (fold_left _ pods2 (k1, [])) as [k2 errs2]. cbn [fst snd].
  by destruct errs1.
Qed.
